(** * libndt: the public header [libndt.hpp] and the layers it declares

    The header fixes the constants, the [Settings] defaults, the error
    taxonomy and the signatures of the [Client] methods.  The first part of
    this file embeds those declarations as they are written.  The bodies of
    the [Client] methods live in the implementation file, which is not part
    of the sources at hand; the later parts model them from the
    specification, on top of a scripted socket. *)

From Stdlib Require Import ZArith Lia List Bool Ascii String.
From Stdlib Require Import Strings.Byte.
From stdpp Require Import base tactics option list gmap strings.

Open Scope Z_scope.

(** ** Integer types of the header

    [unsigned char], [unsigned short], [unsigned int], [uint8_t] and
    [uint64_t] values are integers of [Z]; a brace initialiser such as
    [NettestFlags{1U << 7}] is well formed only when the value fits the
    type, which [fits] records. *)

Definition fits (width : Z) (v : Z) : Prop := 0 <= v < 2 ^ width.

(** An octet as an integer and back; the way back wraps around modulo 256,
    like a conversion to [uint8_t]. *)
Definition Z_of_byte (b : byte) : Z := Z.of_N (Byte.to_N b).

Definition byte_of_Z (z : Z) : byte :=
  match Byte.of_N (Z.to_N (z mod 256)) with
  | Some b => b
  | None => "000"%byte
  end.

Definition Version_width : Z := 32.
Definition NettestFlags_width : Z := 8.
Definition Verbosity_width : Z := 32.
Definition ProtocolFlags_width : Z := 32.
Definition Timeout_width : Z := 32.
Definition MlabnsPolicy_width : Z := 16.
Definition MsgType_width : Z := 8.

Definition version_major : Z := 0.
Definition version_minor : Z := 26.
Definition version_patch : Z := 0.

(** Flags that indicate what subtests to run ([NettestFlags]). *)
Definition nettest_flag_middlebox : Z := Z.shiftl 1 0.
Definition nettest_flag_upload : Z := Z.shiftl 1 1.
Definition nettest_flag_download : Z := Z.shiftl 1 2.
Definition nettest_flag_simple_firewall : Z := Z.shiftl 1 3.
Definition nettest_flag_status : Z := Z.shiftl 1 4.
Definition nettest_flag_meta : Z := Z.shiftl 1 5.
Definition nettest_flag_upload_ext : Z := Z.shiftl 1 6.
Definition nettest_flag_download_ext : Z := Z.shiftl 1 7.

(** The flags in the order the header declares them. *)
Definition nettest_flags_all : list Z :=
  [ nettest_flag_middlebox; nettest_flag_upload; nettest_flag_download;
    nettest_flag_simple_firewall; nettest_flag_status; nettest_flag_meta;
    nettest_flag_upload_ext; nettest_flag_download_ext ].

(** Library's logging verbosity. *)
Definition verbosity_quiet : Z := 0.
Definition verbosity_warning : Z := 1.
Definition verbosity_info : Z := 2.
Definition verbosity_debug : Z := 3.

Definition ndt_version_compat : string := "v3.7.0".

Definition SizeMax : Z := 2 ^ 64 - 1.

(** [is_socket_valid], the branch taken outside Windows. *)
Definition is_socket_valid (s : Z) : bool := 0 <=? s.

(** Flags to select what protocol should be used ([ProtocolFlags]). *)
Definition protocol_flag_json : Z := Z.shiftl 1 0.
Definition protocol_flag_tls : Z := Z.shiftl 1 1.
Definition protocol_flag_websocket : Z := Z.shiftl 1 2.

(** Flags modifying the behavior of mlab-ns ([MlabnsPolicy]). *)
Definition mlabns_policy_closest : Z := 0.
Definition mlabns_policy_random : Z := 1.
Definition mlabns_policy_geo_options : Z := 2.

(** ** [class Settings] and its default member initialisers *)

Record Settings : Type := mkSettings {
  mlabns_base_url : string;
  mlabns_policy : Z;
  timeout : Z;
  hostname : string;
  port : string;
  nettest_flags : Z;
  verbosity : Z;
  metadata : gmap string string;
  protocol_flags : Z;
  max_runtime : Z;
  socks5h_port : string;
  ca_bundle_path : string;
  tls_verify_peer : bool
}.

(** The value of [Settings{}]: every member takes its default member
    initialiser, and a [std::string] without one is empty. *)
Definition Settings_default : Settings := {|
  mlabns_base_url := "https://mlab-ns.appspot.com";
  mlabns_policy := mlabns_policy_geo_options;
  timeout := 7;
  hostname := "";
  port := "";
  nettest_flags := nettest_flag_download;
  verbosity := verbosity_quiet;
  metadata :=
    <["client.version" := ndt_version_compat]>
      (<["client.application" := "measurement-kit/libndt"]> ∅);
  protocol_flags := 0;
  max_runtime := 14;
  socks5h_port := "";
  ca_bundle_path := "";
  tls_verify_peer := true
|}.

(** A flag is requested by a mask when their bitwise AND is not zero, the
    test [(mask & flag) != 0] of C++. *)
Definition flag_set (mask flag : Z) : bool := negb (Z.land mask flag =? 0).

(** The mask that requests the subtests chosen by [wants], one choice per
    flag in the header's order: the chosen flags OR-ed together. *)
Definition nettest_mask (wants : list bool) : Z :=
  foldr Z.lor 0
    (zip_with (fun (want : bool) flag => if want then flag else 0)
       wants nettest_flags_all).

(** ** [enum class Err] *)

Inductive Err : Set :=
  | none
  | broken_pipe
  | connection_aborted
  | connection_refused
  | connection_reset
  | function_not_supported
  | host_unreachable
  | interrupted
  | invalid_argument
  | io_error
  | message_size
  | network_down
  | network_reset
  | network_unreachable
  | operation_in_progress
  | operation_would_block
  | timed_out
  | value_too_large
  | ai_generic
  | ai_again
  | ai_fail
  | ai_noname
  | ssl_generic
  | ssl_want_read
  | ssl_want_write
  | ssl_syscall
  | eof
  | socks5h
  | ws_proto.

#[global] Instance Err_eq_dec : EqDecision Err.
Proof. solve_decision. Defined.

(** ** NDT message types ([MsgType]) *)

Definition msg_comm_failure : Z := 0.
Definition msg_srv_queue : Z := 1.
Definition msg_login : Z := 2.
Definition msg_test_prepare : Z := 3.
Definition msg_test_start : Z := 4.
Definition msg_test_msg : Z := 5.
Definition msg_test_finalize : Z := 6.
Definition msg_error : Z := 7.
Definition msg_results : Z := 8.
Definition msg_logout : Z := 9.
Definition msg_waiting : Z := 10.
Definition msg_extended_login : Z := 11.

(** ** WebSocket constants *)

Definition ws_opcode_continue : Z := 0.
Definition ws_opcode_text : Z := 1.
Definition ws_opcode_binary : Z := 2.
Definition ws_opcode_close : Z := 8.
Definition ws_opcode_ping : Z := 9.
Definition ws_opcode_pong : Z := 10.

Definition ws_fin_flag : Z := 0x80.
Definition ws_reserved_mask : Z := 0x70.
Definition ws_opcode_mask : Z := 0x0f.

Definition ws_mask_flag : Z := 0x80.
Definition ws_len_mask : Z := 0x7f.

Definition ws_f_connection : Z := Z.shiftl 1 0.
Definition ws_f_sec_ws_accept : Z := Z.shiftl 1 1.
Definition ws_f_sec_ws_protocol : Z := Z.shiftl 1 2.
Definition ws_f_upgrade : Z := Z.shiftl 1 3.

Definition ws_proto_control : string := "ndt".
Definition ws_proto_c2s : string := "c2s".
Definition ws_proto_s2c : string := "s2c".

(** ** The header's families of constants, in the order it declares them *)

Definition Size_width : Z := 64.

Definition verbosity_all : list Z :=
  [ verbosity_quiet; verbosity_warning; verbosity_info; verbosity_debug ].

Definition protocol_flags_all : list Z :=
  [ protocol_flag_json; protocol_flag_tls; protocol_flag_websocket ].


Definition ws_opcode_all : list Z :=
  [ ws_opcode_continue; ws_opcode_text; ws_opcode_binary; ws_opcode_close;
    ws_opcode_ping; ws_opcode_pong ].

Definition ws_f_all : list Z :=
  [ ws_f_connection; ws_f_sec_ws_accept; ws_f_sec_ws_protocol; ws_f_upgrade ].

Definition Err_all : list Err :=
  [ none; broken_pipe; connection_aborted; connection_refused;
    connection_reset; function_not_supported; host_unreachable; interrupted;
    invalid_argument; io_error; message_size; network_down; network_reset;
    network_unreachable; operation_in_progress; operation_would_block;
    timed_out; value_too_large; ai_generic; ai_again; ai_fail; ai_noname;
    ssl_generic; ssl_want_read; ssl_want_write; ssl_syscall; eof; socks5h;
    ws_proto ].

(** The value of an enumerator of [Err].  No enumerator has an initialiser,
    so the first one is zero and each of the others is one more than the
    enumerator before it. *)
Definition Err_value (e : Err) : Z :=
  match e with
  | none => 0
  | broken_pipe => 1
  | connection_aborted => 2
  | connection_refused => 3
  | connection_reset => 4
  | function_not_supported => 5
  | host_unreachable => 6
  | interrupted => 7
  | invalid_argument => 8
  | io_error => 9
  | message_size => 10
  | network_down => 11
  | network_reset => 12
  | network_unreachable => 13
  | operation_in_progress => 14
  | operation_would_block => 15
  | timed_out => 16
  | value_too_large => 17
  | ai_generic => 18
  | ai_again => 19
  | ai_fail => 20
  | ai_noname => 21
  | ssl_generic => 22
  | ssl_want_read => 23
  | ssl_want_write => 24
  | ssl_syscall => 25
  | eof => 26
  | socks5h => 27
  | ws_proto => 28
  end.

(** A mask with a flag added, [mask | flag], and with a flag removed,
    [mask & ~flag]. *)
Definition flag_add (mask flag : Z) : Z := Z.lor mask flag.

Definition flag_remove (mask flag : Z) : Z := Z.land mask (Z.lnot flag).


(** * The system seam: scripted sockets

    The header gathers the operating-system calls behind mockable wrappers
    ([sys_recv], [sys_send], [sys_poll], ...).  Their behaviour is scripted
    here: every socket carries the future of its receive side and of its
    send side as a list of events, and the bytes it has put on the wire. *)

(** What the receive side of a socket will do next. *)
Inductive rx_event : Type :=
  | RxData (bs : list byte)  (* these bytes have arrived and can be read *)
  | RxIdle (secs : Z)        (* nothing arrives for [secs] seconds *)
  | RxSignal                 (* a signal interrupts the wait for data *)
  | RxFault (e : Err)        (* the next recv fails with this error kind *)
  | RxEof.                   (* the peer has closed the stream *)

(** What the send side of a socket will do next. *)
Inductive tx_event : Type :=
  | TxRoom (n : Z)           (* the socket buffer takes up to [n] bytes *)
  | TxBusy (secs : Z)        (* the buffer stays full for [secs] seconds *)
  | TxSignal                 (* a signal interrupts the wait for room *)
  | TxFault (e : Err).       (* the next send fails with this error kind *)

Record Sock : Type := mkSock {
  rx : list rx_event;
  tx : list tx_event;
  sent : list byte
}.

(** The descriptor table and the random source: [rng i] is the [i]-th byte
    the source gives, [drawn] counts the bytes taken from it so far. *)
Record World : Type := mkWorld {
  socks : gmap Z Sock;
  rng : nat -> byte;
  drawn : nat
}.

Definition set_sock (fd : Z) (s : Sock) (w : World) : World :=
  {| socks := <[fd := s]> (socks w); rng := rng w; drawn := drawn w |}.

(** The bytes still to come on the receive side, whatever their pacing. *)
Fixpoint rx_stream (evs : list rx_event) : list byte :=
  match evs with
  | [] => []
  | RxData bs :: evs' => bs ++ rx_stream evs'
  | _ :: evs' => rx_stream evs'
  end.

(** A measure of a receive script: its events and the bytes they carry. *)
Fixpoint rx_weight (evs : list rx_event) : nat :=
  match evs with
  | [] => O
  | RxData bs :: evs' => S (length bs + rx_weight evs')
  | _ :: evs' => S (rx_weight evs')
  end.

(** The room the send events of a script offer in all. *)
Fixpoint tx_capacity (evs : list tx_event) : Z :=
  match evs with
  | [] => 0
  | TxRoom n :: evs' => Z.max 0 n + tx_capacity evs'
  | _ :: evs' => tx_capacity evs'
  end.

(** Events that only pace the traffic under a timeout of [tmo] seconds:
    bytes arrive, or nothing does for less than [tmo] seconds, or a signal
    interrupts a wait.  A script made of such events is [rx_paced]. *)
Definition rx_benign (tmo : Z) (ev : rx_event) : bool :=
  match ev with
  | RxData bs => negb (Nat.eqb (length bs) 0)
  | RxIdle secs => secs <? tmo
  | RxSignal => true
  | _ => false
  end.

Definition rx_paced (tmo : Z) (evs : list rx_event) : bool :=
  forallb (rx_benign tmo) evs.

Definition tx_benign (tmo : Z) (ev : tx_event) : bool :=
  match ev with
  | TxRoom n => 0 <? n
  | TxBusy secs => secs <? tmo
  | TxSignal => true
  | _ => false
  end.

Definition tx_paced (tmo : Z) (evs : list tx_event) : bool :=
  forallb (tx_benign tmo) evs.

(** A script stalls when a wait of [tmo] seconds on it times out: it is
    over, or it starts with at least [tmo] seconds of nothing. *)
Definition rx_stalls (tmo : Z) (evs : list rx_event) : bool :=
  match evs with
  | [] => true
  | RxIdle secs :: _ => tmo <=? secs
  | _ => false
  end.

Definition tx_stalls (tmo : Z) (evs : list tx_event) : bool :=
  match evs with
  | [] => true
  | TxBusy secs :: _ => tmo <=? secs
  | _ => false
  end.

Definition sock_rx (w : World) (fd : Z) : list rx_event :=
  match socks w !! fd with Some s => rx s | None => [] end.

Definition sock_tx (w : World) (fd : Z) : list tx_event :=
  match socks w !! fd with Some s => tx s | None => [] end.

Definition sock_sent (w : World) (fd : Z) : list byte :=
  match socks w !! fd with Some s => sent s | None => [] end.

(** A world with one open socket, [fd], with the given scripts; the random
    source gives [seed], [seed + 1], ... modulo 256. *)
Definition one_sock_world (fd : Z) (r : list rx_event) (t : list tx_event)
    (seed : Z) : World :=
  {| socks := {[ fd := {| rx := r; tx := t; sent := [] |} ]};
     rng := fun i => byte_of_Z (seed + Z.of_nat i);
     drawn := 0 |}.

(** ** Computations over the world

    A computation runs on a world and gives a result and the next world.
    [None] only ever means that a loop was cut short by its fuel; the
    entry points below give every loop the fuel its script calls for. *)

Definition M (A : Type) : Type := World -> option (A * World).

Definition ret {A : Type} (a : A) : M A := fun w => Some (a, w).

Definition bind {A B : Type} (m : M A) (k : A -> M B) : M B :=
  fun w => match m w with
           | Some (a, w') => k a w'
           | None => None
           end.

Notation "x <- m ;; k" := (bind m (fun x => k))
  (at level 20, m at level 99, k at level 200, only parsing).
Notation "' p <- m ;; k" := (bind m (fun x => let 'p := x in k))
  (at level 20, p pattern, m at level 99, k at level 200, only parsing).

(** Run a step on the socket behind [fd]; a descriptor that is not open
    gives [bad] (EBADF has no kind of its own, so it is an [io_error]). *)
Definition on_sock {A : Type} (fd : Z) (bad : A) (f : Sock -> A * Sock) : M A :=
  fun w => match socks w !! fd with
           | Some s => let '(a, s') := f s in Some (a, set_sock fd s' w)
           | None => Some (bad, w)
           end.

(** Take [n] bytes from the random source. *)
Definition random_bytes (n : nat) : M (list byte) :=
  fun w => Some (map (rng w) (seq (drawn w) n),
                 {| socks := socks w; rng := rng w; drawn := (drawn w + n)%nat |}).

(** ** The scripted system calls *)

(** The error kind of a failed call: a failure is never [none], and one
    without a kind of its own is an [io_error], like an unknown errno. *)
Definition fault_kind (e : Err) : Err :=
  match e with none => io_error | _ => e end.

(** One recv on a socket that does not block: at most [count] of the bytes
    that have arrived; no bytes and [eof] when recv returns 0; no bytes and
    [operation_would_block] when nothing has arrived. *)
Definition recv_step (count : Z) (s : Sock) : (Err * list byte) * Sock :=
  match rx s with
  | [] => ((operation_would_block, []), s)
  | RxData bs :: evs =>
      let n := Z.to_nat (Z.min count (Z.of_nat (length bs))) in
      match n with
      | O => ((eof, []), s)
      | S _ =>
          let left := drop n bs in
          let evs' := match left with [] => evs | _ => RxData left :: evs end in
          ((none, take n bs), {| rx := evs'; tx := tx s; sent := sent s |})
      end
  | RxIdle _ :: _ => ((operation_would_block, []), s)
  | RxSignal :: _ => ((operation_would_block, []), s)
  | RxFault e :: evs =>
      ((fault_kind e, []), {| rx := evs; tx := tx s; sent := sent s |})
  | RxEof :: _ => ((eof, []), s)
  end.

(** One poll for readability with a timeout of [tmo] seconds. *)
Definition wait_readable_step (tmo : Z) (s : Sock) : Err * Sock :=
  match rx s with
  | [] => (timed_out, s)
  | RxIdle secs :: evs =>
      if secs <? tmo
      then (none, {| rx := evs; tx := tx s; sent := sent s |})
      else (timed_out,
            {| rx := RxIdle (secs - tmo) :: evs; tx := tx s; sent := sent s |})
  | RxSignal :: evs => (interrupted, {| rx := evs; tx := tx s; sent := sent s |})
  | _ => (none, s)
  end.

(** One send on a socket that does not block; the count of bytes taken. *)
Definition send_step (data : list byte) (s : Sock) : (Err * Z) * Sock :=
  match tx s with
  | [] => ((operation_would_block, 0), s)
  | TxRoom n :: evs =>
      if n <=? 0
      then ((operation_would_block, 0),
            {| rx := rx s; tx := evs; sent := sent s |})
      else
        let k := Z.min n (Z.of_nat (length data)) in
        let evs' := if k <? n then TxRoom (n - k) :: evs else evs in
        ((none, k),
         {| rx := rx s; tx := evs'; sent := sent s ++ take (Z.to_nat k) data |})
  | TxBusy _ :: _ => ((operation_would_block, 0), s)
  | TxSignal :: _ => ((operation_would_block, 0), s)
  | TxFault e :: evs =>
      ((fault_kind e, 0), {| rx := rx s; tx := evs; sent := sent s |})
  end.

(** One poll for writability with a timeout of [tmo] seconds. *)
Definition wait_writeable_step (tmo : Z) (s : Sock) : Err * Sock :=
  match tx s with
  | [] => (timed_out, s)
  | TxBusy secs :: evs =>
      if secs <? tmo
      then (none, {| rx := rx s; tx := evs; sent := sent s |})
      else (timed_out,
            {| rx := rx s; tx := TxBusy (secs - tmo) :: evs; sent := sent s |})
  | TxSignal :: evs => (interrupted, {| rx := rx s; tx := evs; sent := sent s |})
  | _ => (none, s)
  end.

(** * NetIO *)

(** Modelled from the spec: the body of [Client::netx_recv_nonblocking]. A
    single recv that never blocks, its outcome mapped to the error kinds. *)
Definition netx_recv_nonblocking (fd : Z) (count : Z) : M (Err * list byte) :=
  on_sock fd (io_error, []) (recv_step count).

(** Modelled from the spec: the body of [Client::netx_wait_readable]. A
    single poll: [timed_out] when nothing arrives within [tmo] seconds,
    [interrupted] on EINTR, [none] as soon as a recv would not block. *)
Definition netx_wait_readable (fd : Z) (tmo : Z) : M Err :=
  on_sock fd io_error (wait_readable_step tmo).

(** Modelled from the spec: the body of [Client::netx_send_nonblocking]. *)
Definition netx_send_nonblocking (fd : Z) (data : list byte) : M (Err * Z) :=
  on_sock fd (io_error, 0) (send_step data).

(** Modelled from the spec: the body of [Client::netx_wait_writeable]. *)
Definition netx_wait_writeable (fd : Z) (tmo : Z) : M Err :=
  on_sock fd io_error (wait_writeable_step tmo).

(** Modelled from the spec: the body of [Client::netx_recvn]. It loops over
    the nonblocking variant, awaiting readability up to the I/O timeout per
    wait, until exactly [count] bytes are moved or an error surfaces; an
    interrupted wait is retried.  [got] is what the buffer holds so far. *)
Fixpoint netx_recvn_loop (fuel : nat) (tmo fd count : Z) (got : list byte)
  : M (Err * list byte) :=
  if count <=? Z.of_nat (length got) then ret (none, got)
  else match fuel with
       | O => fun _ => None
       | S fuel' =>
           '(err, bs) <- netx_recv_nonblocking fd (count - Z.of_nat (length got)) ;;
           match err with
           | none => netx_recvn_loop fuel' tmo fd count (got ++ bs)
           | operation_would_block =>
               werr <- netx_wait_readable fd tmo ;;
               match werr with
               | none | interrupted => netx_recvn_loop fuel' tmo fd count got
               | _ => ret (werr, got)
               end
           | _ => ret (err, got)
           end
       end.

Definition netx_recvn (st : Settings) (fd count : Z) : M (Err * list byte) :=
  fun w =>
    netx_recvn_loop (S (length (sock_rx w fd))) (timeout st) fd count [] w.

(** Modelled from the spec: the body of [Client::netx_sendn], the same loop
    on the send side.  The buffer and its byte count are the list [data];
    [off] counts the bytes already taken by the socket. *)
Fixpoint netx_sendn_loop (fuel : nat) (tmo fd : Z) (data : list byte) (off : Z)
  : M (Err * Z) :=
  if Z.of_nat (length data) <=? off then ret (none, off)
  else match fuel with
       | O => fun _ => None
       | S fuel' =>
           '(err, n) <- netx_send_nonblocking fd (drop (Z.to_nat off) data) ;;
           match err with
           | none => netx_sendn_loop fuel' tmo fd data (off + n)
           | operation_would_block =>
               werr <- netx_wait_writeable fd tmo ;;
               match werr with
               | none | interrupted => netx_sendn_loop fuel' tmo fd data off
               | _ => ret (werr, off)
               end
           | _ => ret (err, off)
           end
       end.

Definition netx_sendn (st : Settings) (fd : Z) (data : list byte) : M (Err * Z) :=
  fun w =>
    netx_sendn_loop (S (length (sock_tx w fd))) (timeout st) fd data 0 w.

(** * MsgCodec: the legacy wire *)

(** What a [Client] holds for the functions below: its settings and the
    descriptor of its control connection. *)
Record Client : Type := mkClient {
  settings : Settings;
  sock : Z
}.

(** Modelled from the spec: the legacy header, [type:u8] then
    [length:u16 big-endian]. *)
Definition legacy_header (code len : Z) : list byte :=
  [byte_of_Z code; byte_of_Z (len / 256); byte_of_Z (len mod 256)].

(** A whole legacy message as it travels: the header, then the payload. *)
Definition legacy_message (code : Z) (msg : list byte) : list byte :=
  legacy_header code (Z.of_nat (length msg)) ++ msg.

(** Modelled from the spec: the body of [Client::msg_write_legacy], with the
    error kind of its outcome.  It fails with [message_size] when the
    payload is longer than 65535 bytes, and otherwise sends the header and
    then the payload on the control connection. *)
Definition msg_write_legacy_err (c : Client) (code : Z) (msg : list byte) : M Err :=
  if 65535 <? Z.of_nat (length msg) then ret message_size
  else
    '(err, _) <- netx_sendn (settings c) (sock c)
                   (legacy_header code (Z.of_nat (length msg))) ;;
    match err with
    | none =>
        '(err', _) <- netx_sendn (settings c) (sock c) msg ;;
        ret err'
    | _ => ret err
    end.

(** [Client::msg_write_legacy] as the header declares it: the [bool] it
    returns tells whether the outcome was [none]. *)
Definition msg_write_legacy (c : Client) (code : Z) (msg : list byte) : M bool :=
  err <- msg_write_legacy_err c code msg ;;
  ret (bool_decide (err = none)).

(** Modelled from the spec: the body of [Client::msg_read_legacy].  It reads
    the three bytes of the header, then as many payload bytes as the header
    announces; it fails when either read does.  [Some (code, msg)] stands
    for a [true] return with [*code] and [*msg] set, [None] for a [false]
    return. *)
Definition msg_read_legacy (c : Client) : M (option (Z * list byte)) :=
  '(err, hdr) <- netx_recvn (settings c) (sock c) 3 ;;
  match err, hdr with
  | none, [b0; b1; b2] =>
      let len := 256 * Z_of_byte b1 + Z_of_byte b2 in
      '(err', msg) <- netx_recvn (settings c) (sock c) len ;;
      match err' with
      | none => ret (Some (Z_of_byte b0, msg))
      | _ => ret None
      end
  | _, _ => ret None
  end.

(** Write a message on a socket with room for it, and read back what went
    on the wire from a socket that delivers it in one piece. *)
Definition legacy_loopback (code : Z) (msg : list byte) : option (Z * list byte) :=
  let c := {| settings := Settings_default; sock := 3 |} in
  match msg_write_legacy c code msg (one_sock_world 3 [] [TxRoom 70000] 0) with
  | Some (true, w) =>
      match msg_read_legacy c (one_sock_world 3 [RxData (sock_sent w 3)] [] 0) with
      | Some (r, _) => r
      | None => None
      end
  | _ => None
  end.

(** * WsLayer: frames *)

(** The XOR of two octets, [a ^ b] on [uint8_t]. *)
Definition byte_xor (a b : byte) : byte :=
  byte_of_Z (Z.lxor (Z_of_byte a) (Z_of_byte b)).

(** Masking with a four-byte key: octet [i] of the payload is XOR-ed with
    octet [i mod 4] of the key. *)
Fixpoint ws_mask_from (key : list byte) (i : nat) (bs : list byte) : list byte :=
  match bs with
  | [] => []
  | b :: bs' =>
      byte_xor b (nth (i mod 4) key "000"%byte) :: ws_mask_from key (S i) bs'
  end.

Definition ws_mask (key bs : list byte) : list byte := ws_mask_from key 0 bs.

(** Big-endian integers of [n] bytes. *)
Fixpoint be_bytes (n : nat) (v : Z) : list byte :=
  match n with
  | O => []
  | S n' => be_bytes n' (v / 256) ++ [byte_of_Z (v mod 256)]
  end.

Definition be_value (bs : list byte) : Z :=
  fold_left (fun acc b => acc * 256 + Z_of_byte b) bs 0.

(** A frame as the caller of the receive functions sees it: the FIN flag,
    the opcode and the payload. *)
Record ws_frame : Type := mkFrame {
  ws_fin : bool;
  ws_opcode : Z;
  ws_payload : list byte
}.

Definition ws_no_frame : ws_frame :=
  {| ws_fin := false; ws_opcode := 0; ws_payload := [] |}.

(** Modelled from the spec: the length encoding of a frame, after its first
    byte: one byte below 126; 126 and two more bytes big-endian up to 65535;
    else 127 and eight more bytes big-endian.  [flag] is the mask bit. *)
Definition ws_length_bytes (flag len : Z) : list byte :=
  if len <? 126 then [byte_of_Z (Z.lor flag len)]
  else if len <=? 65535 then byte_of_Z (Z.lor flag 126) :: be_bytes 2 len
  else byte_of_Z (Z.lor flag 127) :: be_bytes 8 len.

(** The header a client sends: the first byte, the length with the mask
    bit set, and the mask key. *)
Definition ws_client_header (first_byte : Z) (key : list byte) (len : Z)
  : list byte :=
  byte_of_Z first_byte :: ws_length_bytes ws_mask_flag len ++ key.

(** A whole client frame as it travels. *)
Definition ws_client_frame (first_byte : Z) (key payload : list byte)
  : list byte :=
  ws_client_header first_byte key (Z.of_nat (length payload))
  ++ ws_mask key payload.

(** A whole server frame as it travels: no reserved bit, no mask. *)
Definition ws_server_frame (f : ws_frame) : list byte :=
  byte_of_Z (Z.lor (if ws_fin f then ws_fin_flag else 0) (ws_opcode f))
  :: ws_length_bytes 0 (Z.of_nat (length (ws_payload f)))
  ++ ws_payload f.

(** Modelled from the spec: the body of [Client::ws_send_frame].  The caller
    supplies the complete first byte; the frame sets the mask bit, carries a
    random four-byte key, and its payload goes out XOR-masked. *)
Definition ws_send_frame (st : Settings) (fd : Z) (first_byte : Z)
    (payload : list byte) : M Err :=
  key <- random_bytes 4 ;;
  '(err, _) <- netx_sendn st fd
                 (ws_client_header first_byte key (Z.of_nat (length payload))) ;;
  match err with
  | none =>
      '(err', _) <- netx_sendn st fd (ws_mask key payload) ;;
      ret err'
  | _ => ret err
  end.

(** Modelled from the spec: the body of [Client::ws_recv_any_frame].  It
    parses the header, rejects reserved bits and a masked frame (as the
    protocol errors they are, with [ws_proto]), reads the extended length
    when there is one, fails with [message_size] when the payload is larger
    than the buffer of [total] bytes, and reads exactly the payload. *)
Definition ws_recv_any_frame (st : Settings) (fd : Z) (total : Z)
  : M (Err * ws_frame) :=
  '(err, hdr) <- netx_recvn st fd 2 ;;
  match err with
  | none =>
      let b0 := Z_of_byte (nth 0 hdr "000"%byte) in
      let b1 := Z_of_byte (nth 1 hdr "000"%byte) in
      let fin := negb (Z.land b0 ws_fin_flag =? 0) in
      let opcode := Z.land b0 ws_opcode_mask in
      if negb (Z.land b0 ws_reserved_mask =? 0) then ret (ws_proto, ws_no_frame)
      else if negb (Z.land b1 ws_mask_flag =? 0) then ret (ws_proto, ws_no_frame)
      else
        let len7 := Z.land b1 ws_len_mask in
        '(err1, len) <-
          (if len7 =? 126 then
             '(e, ext) <- netx_recvn st fd 2 ;; ret (e, be_value ext)
           else if len7 =? 127 then
             '(e, ext) <- netx_recvn st fd 8 ;; ret (e, be_value ext)
           else ret (none, len7)) ;;
        match err1 with
        | none =>
            if total <? len then ret (message_size, ws_no_frame)
            else
              '(err2, payload) <- netx_recvn st fd len ;;
              match err2 with
              | none =>
                  ret (none, {| ws_fin := fin; ws_opcode := opcode;
                                ws_payload := payload |})
              | _ => ret (err2, ws_no_frame)
              end
        | _ => ret (err1, ws_no_frame)
        end
  | _ => ret (err, ws_no_frame)
  end.

(** Modelled from the spec: the body of [Client::ws_recv_frame].  On a PING
    it emits at once a PONG with the same payload and reads on; a PONG it
    discards and reads on; on a CLOSE it emits a CLOSE back and returns
    [eof]; any other frame it returns to the caller.  The control frames it
    emits are not fragmented: their first byte has the FIN flag.  The CLOSE
    it emits has no payload, and [eof] is returned whether or not it could
    be sent; a PONG that cannot be sent ends the call with the error. *)
Fixpoint ws_recv_frame_loop (fuel : nat) (st : Settings) (fd : Z) (total : Z)
  : M (Err * ws_frame) :=
  match fuel with
  | O => fun _ => None
  | S fuel' =>
      '(err, f) <- ws_recv_any_frame st fd total ;;
      match err with
      | none =>
          if ws_opcode f =? ws_opcode_close then
            _ <- ws_send_frame st fd (Z.lor ws_opcode_close ws_fin_flag) [] ;;
            ret (eof, f)
          else if ws_opcode f =? ws_opcode_pong then
            ws_recv_frame_loop fuel' st fd total
          else if ws_opcode f =? ws_opcode_ping then
            err' <- ws_send_frame st fd (Z.lor ws_opcode_pong ws_fin_flag)
                      (ws_payload f) ;;
            match err' with
            | none => ws_recv_frame_loop fuel' st fd total
            | _ => ret (err', f)
            end
          else ret (none, f)
      | _ => ret (err, f)
      end
  end.

Definition ws_recv_frame (st : Settings) (fd : Z) (total : Z)
  : M (Err * ws_frame) :=
  fun w => ws_recv_frame_loop (S (rx_weight (sock_rx w fd))) st fd total w.

(** The key of a frame sent when [pos] random bytes have been drawn. *)
Definition ws_key_at (w : World) (pos : nat) : list byte :=
  map (rng w) (seq pos 4).

(** What the wire must carry in answer to the control frames [fs], in the
    words of the spec: for every PING a PONG with the same payload, for a
    PONG nothing.  [pos] counts the random bytes drawn before. *)
Fixpoint ws_replies (w : World) (pos : nat) (fs : list ws_frame) : list byte :=
  match fs with
  | [] => []
  | f :: fs' =>
      if ws_opcode f =? ws_opcode_ping then
        ws_client_frame (Z.lor ws_opcode_pong ws_fin_flag) (ws_key_at w pos)
          (ws_payload f)
        ++ ws_replies w (pos + 4) fs'
      else ws_replies w pos fs'
  end.

(** The random bytes drawn in answering the control frames [fs]. *)
Fixpoint ws_replies_drawn (fs : list ws_frame) : nat :=
  match fs with
  | [] => O
  | f :: fs' =>
      let n := if ws_opcode f =? ws_opcode_ping then 4%nat else 0%nat in
      (n + ws_replies_drawn fs')%nat
  end.

Definition ws_is_control (f : ws_frame) : bool :=
  (ws_opcode f =? ws_opcode_ping) || (ws_opcode f =? ws_opcode_pong).

(** A frame the receive functions can take into a buffer of [total] bytes:
    a four-bit opcode and a payload that fits the buffer and a 64-bit
    length. *)
Definition ws_frame_fits (total : Z) (f : ws_frame) : bool :=
  (0 <=? ws_opcode f) && (ws_opcode f <? 16) &&
  (Z.of_nat (length (ws_payload f)) <=? total) &&
  (Z.of_nat (length (ws_payload f)) <? 2 ^ 64).

(** The socket [fd] of [w] seen from the program.  A paced script feeds it
    the bytes [inb]; a paced script offers it room for [cap] bytes; it has
    put the bytes [out] on the wire.  What the scripts do afterwards is left
    open. *)
Definition fed_sock (st : Settings) (fd : Z) (w : World) (inb : list byte)
  : Prop :=
  exists pre rest,
    sock_rx w fd = pre ++ rest /\ rx_paced (timeout st) pre = true /\
    rx_stream pre = inb.

Definition roomy_sock (st : Settings) (fd : Z) (w : World) (cap : Z) : Prop :=
  exists pre rest,
    sock_tx w fd = pre ++ rest /\ tx_paced (timeout st) pre = true /\
    tx_capacity pre = cap.

Definition paced_sock (st : Settings) (fd : Z) (w : World)
    (inb : list byte) (cap : Z) (out : list byte) : Prop :=
  fed_sock st fd w inb /\ roomy_sock st fd w cap /\ sock_sent w fd = out.

(** * MsgCodec: the expect helpers *)

(** White space, as [isspace] sees it in the C locale. *)
Definition is_space (b : byte) : bool :=
  let z := Z_of_byte b in (z =? 32) || ((9 <=? z) && (z <=? 13)).

(** The fields of a payload: its maximal runs of bytes that are not white
    space.  [cur] is the field being read, last byte first. *)
Fixpoint fields_from (cur : list byte) (bs : list byte) : list (list byte) :=
  match bs with
  | [] => match cur with [] => [] | _ => [rev cur] end
  | b :: bs' =>
      if is_space b
      then match cur with
           | [] => fields_from [] bs'
           | _ => rev cur :: fields_from [] bs'
           end
      else fields_from (b :: cur) bs'
  end.

Definition fields (bs : list byte) : list (list byte) := fields_from [] bs.

(** The value of a decimal numeral: one digit or more and nothing else. *)
Definition digit_value (b : byte) : option Z :=
  let z := Z_of_byte b in
  if (48 <=? z) && (z <=? 57) then Some (z - 48) else None.

Fixpoint decimal_from (acc : Z) (bs : list byte) : option Z :=
  match bs with
  | [] => Some acc
  | b :: bs' =>
      match digit_value b with
      | Some d => decimal_from (10 * acc + d) bs'
      | None => None
      end
  end.

Definition decimal (bs : list byte) : option Z :=
  match bs with
  | [] => None
  | _ => decimal_from 0 bs
  end.

(** Modelled from the spec: [Client::sys_strtonum], the bounded integer
    parse with an error-reason string, on numerals made of digits only.
    The value on the left, or on the right the reason why there is none. *)
Definition sys_strtonum (s : list byte) (minval maxval : Z) : Z + string :=
  if maxval <? minval then inr "invalid"%string
  else match decimal s with
       | None => inr "invalid"%string
       | Some v =>
           if v <? minval then inr "too small"%string
           else if maxval <? v then inr "too large"%string
           else inl v
       end.

Section Expect.

(** [Client::msg_read] is virtual: the helpers below reach the wire only
    through it, whatever the encoding and the transport behind it.
    [Some (code, msg)] stands for a [true] return with [*code] and [*msg]
    set, [None] for a [false] return. *)
Variable msg_read : Client -> M (option (Z * list byte)).

(** The cap on the number of flows.  The spec asks for a sane maximum and
    proposes 16 without fixing it. *)
Variable max_nflows : Z.

(** Modelled from the spec: the body of [Client::msg_expect].  It reads a
    message and succeeds when its type is the expected one. *)
Definition msg_expect (c : Client) (code : Z) : M (option (list byte)) :=
  r <- msg_read c ;;
  match r with
  | Some (code', msg) => if code' =? code then ret (Some msg) else ret None
  | None => ret None
  end.

(** Modelled from the spec: the body of [Client::msg_expect_empty]. *)
Definition msg_expect_empty (c : Client) (code : Z) : M bool :=
  r <- msg_expect c code ;;
  match r with
  | Some [] => ret true
  | _ => ret false
  end.

(** Modelled from the spec: how the test-prepare payload is parsed.  Its
    fields are decimals separated by white space: the port, required and
    between 1 and 65535, then the number of flows, optional, 1 when
    absent, and otherwise a decimal that fits [uint8_t], at least 1, and
    clamped to the cap.  The port is handed over as text, as
    [std::string *pport] takes it. *)
Definition parse_test_prepare (payload : list byte) : option (list byte * Z) :=
  match fields payload with
  | [] => None
  | pport :: opts =>
      match sys_strtonum pport 1 65535 with
      | inr _ => None
      | inl _ =>
          match opts with
          | [] => Some (pport, 1)
          | f :: _ =>
              match sys_strtonum f 1 255 with
              | inr _ => None
              | inl n => Some (pport, Z.min n max_nflows)
              end
          end
      end
  end.

(** Modelled from the spec: the body of [Client::msg_expect_test_prepare].
    [Some (pport, nflows)] stands for a [true] return with [*pport] and
    [*pnflows] set. *)
Definition msg_expect_test_prepare (c : Client) : M (option (list byte * Z)) :=
  r <- msg_expect c msg_test_prepare ;;
  match r with
  | Some payload => ret (parse_test_prepare payload)
  | None => ret None
  end.

End Expect.

(** * WsLayer: the handshake *)

#[global] Instance byte_eq_dec : EqDecision byte := Byte.byte_eq_dec.

Definition bytes_of (s : string) : list byte := list_byte_of_string s.

Definition CR : byte := "013"%byte.
Definition LF : byte := "010"%byte.
Definition CRLF : list byte := [CR; LF].

(** ASCII lower case, for comparisons that ignore case. *)
Definition to_lower (b : byte) : byte :=
  let z := Z_of_byte b in
  if (65 <=? z) && (z <=? 90) then byte_of_Z (z + 32) else b.

Definition eq_nocase (a b : list byte) : bool :=
  bool_decide (map to_lower a = map to_lower b).

Fixpoint is_prefix (p l : list byte) : bool :=
  match p, l with
  | [], _ => true
  | a :: p', b :: l' => bool_decide (a = b) && is_prefix p' l'
  | _ :: _, [] => false
  end.

Fixpoint contains (needle hay : list byte) : bool :=
  is_prefix needle hay ||
  match hay with
  | [] => false
  | _ :: hay' => contains needle hay'
  end.

(** A header line [name: value] taken apart at its first colon. *)
Fixpoint split_colon (bs : list byte) : option (list byte * list byte) :=
  match bs with
  | [] => None
  | b :: bs' =>
      if bool_decide (b = ":"%byte) then Some ([], bs')
      else match split_colon bs' with
           | Some (n, v) => Some (b :: n, v)
           | None => None
           end
  end.

(** The value of a header line without the blanks that lead it. *)
Fixpoint skip_blanks (bs : list byte) : list byte :=
  match bs with
  | b :: bs' =>
      if bool_decide (b = " "%byte) || bool_decide (b = "009"%byte)
      then skip_blanks bs' else bs
  | [] => []
  end.

(** The four headers the handshake can require, each with the flag that
    requires it and with its name. *)
Inductive ws_header : Set :=
  | H_connection
  | H_sec_ws_accept
  | H_sec_ws_protocol
  | H_upgrade.

Definition ws_headers : list ws_header :=
  [H_connection; H_sec_ws_accept; H_sec_ws_protocol; H_upgrade].

Definition ws_header_flag (h : ws_header) : Z :=
  match h with
  | H_connection => ws_f_connection
  | H_sec_ws_accept => ws_f_sec_ws_accept
  | H_sec_ws_protocol => ws_f_sec_ws_protocol
  | H_upgrade => ws_f_upgrade
  end.

Definition ws_header_name (h : ws_header) : list byte :=
  match h with
  | H_connection => bytes_of "Connection"
  | H_sec_ws_accept => bytes_of "Sec-WebSocket-Accept"
  | H_sec_ws_protocol => bytes_of "Sec-WebSocket-Protocol"
  | H_upgrade => bytes_of "Upgrade"
  end.

(** The value a line gives to the header [h], when it is a line of that
    header; header names are compared without regard to case. *)
Definition ws_header_value (h : ws_header) (line : list byte)
  : option (list byte) :=
  match split_colon line with
  | Some (n, v) =>
      if eq_nocase n (ws_header_name h) then Some (skip_blanks v) else None
  | None => None
  end.

Definition ws_guid : list byte :=
  bytes_of "258EAFA5-E914-47DA-95CA-C5AB0DC85B11".

Section Handshake.

(** The digest and the encoding come from the cryptographic library. *)
Variable sha1 : list byte -> list byte.
Variable base64 : list byte -> list byte.

(** The request line of the upgrade and the cap on the length of a line
    are not fixed by the spec. *)
Variable request_line : list byte.
Variable line_cap : Z.

(** Modelled from the spec: the body of [Client::ws_sendln]: the line and
    the end of line. *)
Definition ws_sendln (st : Settings) (fd : Z) (line : list byte) : M Err :=
  '(err, _) <- netx_sendn st fd (line ++ CRLF) ;;
  ret err.

(** Modelled from the spec: the body of [Client::ws_recvln].  It reads
    byte after byte up to the line feed; the end of line is not part of the
    line, so carriage returns are dropped.  The line must be shorter than
    [maxlen]; the spec names no error kind for a longer one, which is a
    [value_too_large] here. *)
Fixpoint ws_recvln_loop (fuel : nat) (st : Settings) (fd : Z) (maxlen : Z)
    (line : list byte) : M (Err * list byte) :=
  if maxlen <=? Z.of_nat (length line) then ret (value_too_large, line)
  else match fuel with
       | O => fun _ => None
       | S fuel' =>
           '(err, bs) <- netx_recvn st fd 1 ;;
           match err with
           | none =>
               let ch := nth 0 bs "000"%byte in
               if bool_decide (ch = CR)
               then ws_recvln_loop fuel' st fd maxlen line
               else if bool_decide (ch = LF) then ret (none, line)
               else ws_recvln_loop fuel' st fd maxlen (line ++ [ch])
           | _ => ret (err, line)
           end
       end.

Definition ws_recvln (st : Settings) (fd : Z) (maxlen : Z)
  : M (Err * list byte) :=
  fun w =>
    ws_recvln_loop (S (rx_weight (sock_rx w fd))) st fd maxlen [] w.

(** Send the lines one after the other, up to the first failure. *)
Fixpoint ws_send_lines (st : Settings) (fd : Z) (lines : list (list byte))
  : M Err :=
  match lines with
  | [] => ret none
  | line :: lines' =>
      err <- ws_sendln st fd line ;;
      match err with
      | none => ws_send_lines st fd lines'
      | _ => ret err
      end
  end.

(** Modelled from the spec: the upgrade request.  [ws_flags] tells which
    of the optional headers to send; [key] is the base64 text of the
    sixteen random bytes. *)
Definition ws_request (st : Settings) (pport : list byte) (ws_flags : Z)
    (ws_protocol key : list byte) : list (list byte) :=
  [request_line;
   bytes_of "Host: " ++ bytes_of (hostname st) ++ bytes_of ":" ++ pport]
  ++ (if flag_set ws_flags ws_f_connection
      then [bytes_of "Connection: Upgrade"] else [])
  ++ (if flag_set ws_flags ws_f_upgrade
      then [bytes_of "Upgrade: websocket"] else [])
  ++ [bytes_of "Sec-WebSocket-Version: 13"]
  ++ (if flag_set ws_flags ws_f_sec_ws_accept
      then [bytes_of "Sec-WebSocket-Key: " ++ key] else [])
  ++ (if flag_set ws_flags ws_f_sec_ws_protocol
      then [bytes_of "Sec-WebSocket-Protocol: " ++ ws_protocol] else [])
  ++ [[]].

(** The value the server must give to [Sec-WebSocket-Accept]. *)
Definition ws_accept (key : list byte) : list byte :=
  base64 (sha1 (key ++ ws_guid)).

(** Modelled from the spec: when the value of a header is valid. *)
Definition ws_value_ok (h : ws_header) (accept ws_protocol v : list byte)
  : bool :=
  match h with
  | H_upgrade => eq_nocase v (bytes_of "websocket")
  | H_connection => contains (bytes_of "Upgrade") v
  | H_sec_ws_accept => bool_decide (v = accept)
  | H_sec_ws_protocol => bool_decide (v = ws_protocol)
  end.

(** What a line of the response does to the handshake: it adds the flag
    of a required header whose valid value it carries, it fails the
    handshake when it carries an invalid value for one, and otherwise it
    changes nothing. *)
Fixpoint ws_check_line (hs : list ws_header) (ws_flags : Z)
    (accept ws_protocol line : list byte) : Z + Err :=
  match hs with
  | [] => inl 0
  | h :: hs' =>
      match ws_header_value h line with
      | Some v =>
          if flag_set ws_flags (ws_header_flag h)
          then if ws_value_ok h accept ws_protocol v
               then inl (ws_header_flag h)
               else inr ws_proto
          else inl 0
      | None => ws_check_line hs' ws_flags accept ws_protocol line
      end
  end.

(** The loop that reads the response line by line until a blank line,
    where every required header must have been seen. *)
Fixpoint ws_handshake_recv_loop (fuel : nat) (st : Settings) (fd : Z)
    (ws_flags : Z) (accept ws_protocol : list byte) (seen : Z) : M Err :=
  match fuel with
  | O => fun _ => None
  | S fuel' =>
      '(err, line) <- ws_recvln st fd line_cap ;;
      match err with
      | none =>
          match line with
          | [] =>
              ret (if Z.land seen ws_flags =? ws_flags then none else ws_proto)
          | _ =>
              match ws_check_line ws_headers ws_flags accept ws_protocol line with
              | inl flag =>
                  ws_handshake_recv_loop fuel' st fd ws_flags accept
                    ws_protocol (Z.lor seen flag)
              | inr e => ret e
              end
          end
      | _ => ret err
      end
  end.

(** Modelled from the spec: the body of [Client::ws_handshake]. *)
Definition ws_handshake (st : Settings) (fd : Z) (pport : list byte)
    (ws_flags : Z) (ws_protocol : list byte) : M Err :=
  random <- random_bytes 16 ;;
  let key := base64 random in
  err <- ws_send_lines st fd (ws_request st pport ws_flags ws_protocol key) ;;
  match err with
  | none =>
      fun w =>
        ws_handshake_recv_loop (S (rx_weight (sock_rx w fd))) st fd ws_flags
          (ws_accept key) ws_protocol 0 w
  | _ => ret err
  end.

(** What the loop answers on a response it receives in full: the lines
    are checked in order, and the flags seen are compared with the flags
    required when the blank line comes. *)
Fixpoint ws_scan (ws_flags : Z) (accept ws_protocol : list byte) (seen : Z)
    (lines : list (list byte)) : Err :=
  match lines with
  | [] => if Z.land seen ws_flags =? ws_flags then none else ws_proto
  | line :: lines' =>
      match ws_check_line ws_headers ws_flags accept ws_protocol line with
      | inl flag => ws_scan ws_flags accept ws_protocol (Z.lor seen flag) lines'
      | inr e => e
      end
  end.

(** The response of a server as it travels: its lines, each with its end
    of line, and the blank line that ends the header block. *)
Definition ws_response (lines : list (list byte)) : list byte :=
  concat (map (fun line => line ++ CRLF) lines) ++ CRLF.

(** A line that [ws_recvln] gives back as it was sent: not blank, without
    a carriage return or a line feed inside, shorter than the cap. *)
Definition ws_plain_line (line : list byte) : bool :=
  negb (Nat.eqb (length line) 0) &&
  forallb (fun b => negb (bool_decide (b = CR)) && negb (bool_decide (b = LF)))
    line &&
  (Z.of_nat (length line) <? line_cap).

(** In the words of the spec: the response lacks a required header, or
    gives it an invalid value. *)
Definition ws_header_missing (h : ws_header) (lines : list (list byte)) : Prop :=
  Forall (fun line => ws_header_value h line = None) lines.

Definition ws_header_invalid (h : ws_header) (accept ws_protocol : list byte)
    (lines : list (list byte)) : Prop :=
  Exists (fun line => exists v, ws_header_value h line = Some v /\
                        ws_value_ok h accept ws_protocol v = false) lines.

End Handshake.

(** * Properties of the header's constants and defaults *)

(** X10: every constant the header initialises with braces, and every
    default of [Settings] of an unsigned type, holds a value of its declared
    type, so that no initialiser narrows. *)
Lemma header_constants_fit :
  Forall (fits Version_width) [version_major; version_minor; version_patch] /\
  Forall (fits NettestFlags_width) nettest_flags_all /\
  Forall (fits Verbosity_width)
    [verbosity_quiet; verbosity_warning; verbosity_info; verbosity_debug] /\
  Forall (fits ProtocolFlags_width)
    [protocol_flag_json; protocol_flag_tls; protocol_flag_websocket;
     protocol_flags Settings_default] /\
  Forall (fits MlabnsPolicy_width)
    [mlabns_policy_closest; mlabns_policy_random; mlabns_policy_geo_options] /\
  Forall (fits Timeout_width)
    [timeout Settings_default; max_runtime Settings_default] /\
  Forall (fits MsgType_width)
    [msg_comm_failure; msg_srv_queue; msg_login; msg_test_prepare;
     msg_test_start; msg_test_msg; msg_test_finalize; msg_error; msg_results;
     msg_logout; msg_waiting; msg_extended_login].
Proof. unfold fits. repeat split; repeat constructor; vm_compute; congruence. Qed.

(** C6: the NDT message type constants are the codes of the protocol:
    comm_failure=0, srv_queue=1, login=2, test_prepare=3, test_start=4,
    test_msg=5, test_finalize=6, error=7, results=8, logout=9, waiting=10,
    extended_login=11. *)
Theorem msg_type_codes :
  msg_comm_failure = 0 /\ msg_srv_queue = 1 /\ msg_login = 2 /\
  msg_test_prepare = 3 /\ msg_test_start = 4 /\ msg_test_msg = 5 /\
  msg_test_finalize = 6 /\ msg_error = 7 /\ msg_results = 8 /\
  msg_logout = 9 /\ msg_waiting = 10 /\ msg_extended_login = 11.
Proof. repeat split; reflexivity. Qed.

(** C7: the eight subtest flags are distinct single bits in the listed
    order (middlebox is bit 0, upload bit 1, download bit 2, simple_firewall
    bit 3, status bit 4, meta bit 5, upload_ext bit 6, download_ext bit 7),
    and every combination of requested subtests is one [NettestFlags] value
    from which each request can be read back. *)
Theorem nettest_flags_single_bits :
  (nettest_flag_middlebox = 2 ^ 0 /\ nettest_flag_upload = 2 ^ 1 /\
   nettest_flag_download = 2 ^ 2 /\ nettest_flag_simple_firewall = 2 ^ 3 /\
   nettest_flag_status = 2 ^ 4 /\ nettest_flag_meta = 2 ^ 5 /\
   nettest_flag_upload_ext = 2 ^ 6 /\ nettest_flag_download_ext = 2 ^ 7) /\
  NoDup nettest_flags_all /\
  forall b0 b1 b2 b3 b4 b5 b6 b7 : bool,
    let mask := nettest_mask [b0; b1; b2; b3; b4; b5; b6; b7] in
    fits NettestFlags_width mask /\
    map (flag_set mask) nettest_flags_all = [b0; b1; b2; b3; b4; b5; b6; b7].
Proof.
  split; [repeat split; reflexivity |].
  split.
  - apply (bool_decide_unpack _). vm_compute. exact I.
  - intros b0 b1 b2 b3 b4 b5 b6 b7 mask; subst mask; unfold fits.
    destruct b0, b1, b2, b3, b4, b5, b6, b7; vm_compute; intuition congruence.
Qed.

(** C8: a default-constructed [Settings] has a per-I/O timeout of 7 seconds
    and a subtest-wide maximum runtime of 14 seconds. *)
Theorem settings_default_timeouts :
  timeout Settings_default = 7 /\ max_runtime Settings_default = 14.
Proof. split; reflexivity. Qed.

(** C9: a default-constructed [Settings] requests the download subtest and
    no other: its mask is [nettest_flag_download], and of the eight flags
    only that one is set in it. *)
Theorem settings_default_download_only :
  nettest_flags Settings_default = nettest_flag_download /\
  map (flag_set (nettest_flags Settings_default)) nettest_flags_all
  = [false; false; true; false; false; false; false; false].
Proof. split; reflexivity. Qed.

(** C10: a default-constructed [Settings] verifies the TLS peer and enables
    no protocol extension: [protocol_flags] is 0, so none of the JSON, TLS
    and WebSocket flags is set. *)
Theorem settings_default_protocol :
  tls_verify_peer Settings_default = true /\
  protocol_flags Settings_default = 0 /\
  flag_set (protocol_flags Settings_default) protocol_flag_json = false /\
  flag_set (protocol_flags Settings_default) protocol_flag_tls = false /\
  flag_set (protocol_flags Settings_default) protocol_flag_websocket = false.
Proof. repeat split; reflexivity. Qed.

(** * Flags as independent bits *)

Lemma flag_set_bit mask k :
  0 <= k -> flag_set mask (Z.shiftl 1 k) = Z.testbit mask k.
Proof.
  intros Hk. unfold flag_set. rewrite Z.shiftl_1_l.
  assert (Hland : Z.land mask (2 ^ k) = if Z.testbit mask k then 2 ^ k else 0).
  { apply Z.bits_inj'. intros n Hn.
    rewrite Z.land_spec, Z.pow2_bits_eqb by lia.
    destruct (Z.eqb_spec k n) as [<- | Hne].
    - destruct (Z.testbit mask k) eqn:Hbit; rewrite ?Hbit.
      + by rewrite Z.pow2_bits_true.
      + by rewrite Z.bits_0.
    - rewrite andb_false_r.
      destruct (Z.testbit mask k); [| by rewrite Z.bits_0].
      rewrite Z.pow2_bits_eqb by lia. symmetry. by apply Z.eqb_neq. }
  rewrite Hland. destruct (Z.testbit mask k); [| done].
  apply negb_true_iff, Z.eqb_neq. pose proof (Z.pow_pos_nonneg 2 k). lia.
Qed.

(** Adding or removing the flag of one bit changes the answer for that bit
    and for no other. *)
Lemma bit_flags_independent mask i j :
  0 <= i -> 0 <= j -> i <> j ->
  flag_set (flag_add mask (Z.shiftl 1 i)) (Z.shiftl 1 i) = true /\
  flag_set (flag_add mask (Z.shiftl 1 i)) (Z.shiftl 1 j)
  = flag_set mask (Z.shiftl 1 j) /\
  flag_set (flag_remove mask (Z.shiftl 1 i)) (Z.shiftl 1 i) = false /\
  flag_set (flag_remove mask (Z.shiftl 1 i)) (Z.shiftl 1 j)
  = flag_set mask (Z.shiftl 1 j).
Proof.
  intros Hi Hj Hne. unfold flag_add, flag_remove.
  rewrite !flag_set_bit by done.
  rewrite !Z.lor_spec, !Z.land_spec, !Z.lnot_spec by done.
  rewrite !Z.shiftl_1_l, !Z.pow2_bits_eqb by done.
  rewrite Z.eqb_refl. replace (i =? j) with false by (symmetry; by apply Z.eqb_neq).
  cbn [negb]. by rewrite orb_true_r, orb_false_r, andb_false_r, andb_true_r.
Qed.

(** A mask of a width stays of that width when a flag of a bit below the
    width is added or removed. *)
Lemma bit_flags_fit width mask i :
  fits width mask -> 0 <= i < width ->
  fits width (flag_add mask (Z.shiftl 1 i)) /\
  fits width (flag_remove mask (Z.shiftl 1 i)).
Proof.
  unfold fits, flag_add, flag_remove. intros [Hlo Hhi] Hi.
  rewrite Z.shiftl_1_l.
  assert (Hpow : 0 < 2 ^ i) by (apply Z.pow_pos_nonneg; lia).
  split.
  - split; [apply Z.lor_nonneg; lia |].
    destruct (Z.eq_dec (Z.lor mask (2 ^ i)) 0) as [-> | Hnz];
      [apply Z.pow_pos_nonneg; lia |].
    apply Z.log2_lt_pow2; [pose proof (proj2 (Z.lor_nonneg mask (2 ^ i))); lia |].
    rewrite Z.log2_lor by lia. rewrite Z.log2_pow2 by lia.
    destruct (Z.eq_dec mask 0) as [-> | Hm]; [simpl; lia |].
    assert (Z.log2 mask < width) by (apply Z.log2_lt_pow2; lia). lia.
  - rewrite <- Z.ldiff_land. split.
    + apply Z.ldiff_nonneg. lia.
    + set (x := Z.ldiff mask (2 ^ i)).
      assert (Hx : 0 <= x) by (apply Z.ldiff_nonneg; lia).
      destruct (Z.eq_dec x 0) as [-> | Hnz]; [apply Z.pow_pos_nonneg; lia |].
      apply Z.log2_lt_pow2; [lia |].
      assert (Hmask : 0 < mask).
      { destruct (Z.eq_dec mask 0) as [Hm | Hm]; [| lia].
        subst x. rewrite Hm, Z.ldiff_0_l in Hnz. done. }
      pose proof (Z.lor_ldiff_and mask (2 ^ i)) as Hsplit. fold x in Hsplit.
      assert (Hland : 0 <= Z.land mask (2 ^ i)) by (apply Z.land_nonneg; lia).
      pose proof (Z.log2_lor x (Z.land mask (2 ^ i)) Hx Hland) as Hlog.
      rewrite Hsplit in Hlog.
      assert (Z.log2 mask < width) by (apply Z.log2_lt_pow2; lia). lia.
Qed.

Lemma flag_of_list (flags : list Z) (bits : list Z) f :
  flags = map (Z.shiftl 1) bits -> In f flags ->
  exists k, In k bits /\ f = Z.shiftl 1 k.
Proof.
  intros -> Hin. apply in_map_iff in Hin as (k & <- & Hk). by exists k.
Qed.

(** The flags of a family of distinct bits below a width are independent:
    adding or removing one of them in any mask changes the answer for that
    flag only, and keeps the mask within the width. *)
Lemma family_flags_independent width (flags bits : list Z) :
  flags = map (Z.shiftl 1) bits ->
  Forall (fun k => 0 <= k < width) bits ->
  forall mask f g,
    In f flags -> In g flags -> f <> g ->
    (flag_set (flag_add mask f) f = true /\
     flag_set (flag_add mask f) g = flag_set mask g /\
     flag_set (flag_remove mask f) f = false /\
     flag_set (flag_remove mask f) g = flag_set mask g) /\
    (fits width mask ->
     fits width (flag_add mask f) /\ fits width (flag_remove mask f)).
Proof.
  intros Hflags Hbits mask f g Hf Hg Hne.
  destruct (flag_of_list flags bits f Hflags Hf) as (i & Hi & ->).
  destruct (flag_of_list flags bits g Hflags Hg) as (j & Hj & ->).
  rewrite List.Forall_forall in Hbits.
  pose proof (Hbits i Hi). pose proof (Hbits j Hj).
  split.
  - apply bit_flags_independent; [lia | lia | congruence].
  - intros Hfit. by apply bit_flags_fit.
Qed.

(** X1: setting or clearing one subtest flag in a [NettestFlags] mask,
    with [mask | flag] or [mask & ~flag], makes that flag set or clear,
    leaves every other subtest flag as it was, and gives a [NettestFlags]
    value again.  The eight flags use every bit of the type: any
    [NettestFlags] value is the OR of the flags set in it. *)
Theorem nettest_flags_independent :
  (forall mask f g,
     In f nettest_flags_all -> In g nettest_flags_all -> f <> g ->
     (flag_set (flag_add mask f) f = true /\
      flag_set (flag_add mask f) g = flag_set mask g /\
      flag_set (flag_remove mask f) f = false /\
      flag_set (flag_remove mask f) g = flag_set mask g) /\
     (fits NettestFlags_width mask ->
      fits NettestFlags_width (flag_add mask f) /\
      fits NettestFlags_width (flag_remove mask f))) /\
  (forall b : byte,
     nettest_mask (map (flag_set (Z_of_byte b)) nettest_flags_all)
     = Z_of_byte b).
Proof.
  split.
  - apply (family_flags_independent _ _ [0; 1; 2; 3; 4; 5; 6; 7]);
      [reflexivity |].
    repeat constructor; unfold NettestFlags_width; lia.
  - intros b. destruct b; reflexivity.
Qed.

(** X2: the three protocol flags are distinct single bits (JSON is bit 0, TLS
    bit 1, WebSocket bit 2).  Every combination of them is one
    [ProtocolFlags] value from which each choice can be read back, and
    setting or clearing one of them in any mask leaves the other two as
    they were. *)
Theorem protocol_flags_single_bits :
  (protocol_flag_json = 2 ^ 0 /\ protocol_flag_tls = 2 ^ 1 /\
   protocol_flag_websocket = 2 ^ 2) /\
  NoDup protocol_flags_all /\
  (forall json tls websocket : bool,
     let mask :=
       Z.lor (if json then protocol_flag_json else 0)
         (Z.lor (if tls then protocol_flag_tls else 0)
            (if websocket then protocol_flag_websocket else 0)) in
     fits ProtocolFlags_width mask /\
     map (flag_set mask) protocol_flags_all = [json; tls; websocket]) /\
  (forall mask f g,
     In f protocol_flags_all -> In g protocol_flags_all -> f <> g ->
     (flag_set (flag_add mask f) f = true /\
      flag_set (flag_add mask f) g = flag_set mask g /\
      flag_set (flag_remove mask f) f = false /\
      flag_set (flag_remove mask f) g = flag_set mask g) /\
     (fits ProtocolFlags_width mask ->
      fits ProtocolFlags_width (flag_add mask f) /\
      fits ProtocolFlags_width (flag_remove mask f))).
Proof.
  split; [repeat split; reflexivity |].
  split; [apply (bool_decide_unpack _); vm_compute; exact I |].
  split.
  - intros json tls websocket mask; subst mask; unfold fits.
    destruct json, tls, websocket; vm_compute; intuition congruence.
  - apply (family_flags_independent _ _ [0; 1; 2]); [reflexivity |].
    repeat constructor; unfold ProtocolFlags_width; lia.
Qed.

(** X3: the four flags that say which headers a WebSocket handshake requires
    are distinct single bits (Connection is bit 0, Sec-WebSocket-Accept
    bit 1, Sec-WebSocket-Protocol bit 2, Upgrade bit 3).  Every combination
    of them is one [uint64_t] value from which each choice can be read
    back, and setting or clearing one of them in any mask leaves the other
    three as they were. *)
Theorem ws_f_flags_single_bits :
  (ws_f_connection = 2 ^ 0 /\ ws_f_sec_ws_accept = 2 ^ 1 /\
   ws_f_sec_ws_protocol = 2 ^ 2 /\ ws_f_upgrade = 2 ^ 3) /\
  NoDup ws_f_all /\
  (forall connection accept protocol upgrade : bool,
     let mask :=
       Z.lor (if connection then ws_f_connection else 0)
         (Z.lor (if accept then ws_f_sec_ws_accept else 0)
            (Z.lor (if protocol then ws_f_sec_ws_protocol else 0)
               (if upgrade then ws_f_upgrade else 0))) in
     fits Size_width mask /\
     map (flag_set mask) ws_f_all = [connection; accept; protocol; upgrade]) /\
  (forall mask f g,
     In f ws_f_all -> In g ws_f_all -> f <> g ->
     (flag_set (flag_add mask f) f = true /\
      flag_set (flag_add mask f) g = flag_set mask g /\
      flag_set (flag_remove mask f) f = false /\
      flag_set (flag_remove mask f) g = flag_set mask g) /\
     (fits Size_width mask ->
      fits Size_width (flag_add mask f) /\
      fits Size_width (flag_remove mask f))).
Proof.
  split; [repeat split; reflexivity |].
  split; [apply (bool_decide_unpack _); vm_compute; exact I |].
  split.
  - intros connection accept protocol upgrade mask; subst mask; unfold fits.
    destruct connection, accept, protocol, upgrade; vm_compute;
      intuition congruence.
  - apply (family_flags_independent _ _ [0; 1; 2; 3]); [reflexivity |].
    repeat constructor; unfold Size_width; lia.
Qed.

(** * The error taxonomy *)

(** X6: the enumerators of [Err] have the values 0 to 28 in the order of their
    declaration: the enumerator of value [v] is the [v]-th declared.  Two
    enumerators with the same value are the same, and [none] is the only
    one whose value is zero. *)
Theorem Err_values_consecutive :
  length Err_all = 29%nat /\
  (forall e : Err,
     0 <= Err_value e <= 28 /\
     Err_all !! Z.to_nat (Err_value e) = Some e) /\
  (forall e e' : Err, Err_value e = Err_value e' -> e = e') /\
  (forall e : Err, Err_value e = 0 <-> e = none).
Proof.
  split; [reflexivity |]. split; [| split].
  - intros e. destruct e; (split; [simpl; lia | reflexivity]).
  - intros e e' Heq.
    assert (Hat : forall x, Err_all !! Z.to_nat (Err_value x) = Some x)
      by (intros x; destruct x; reflexivity).
    pose proof (Hat e) as He. rewrite Heq, Hat in He. congruence.
  - intros e. split; [| by intros ->].
    destruct e; (done || (simpl; intros; discriminate)).
Qed.

(** * More defaults of [Settings] *)



(** X9: the verbosity levels grow from quiet through warning and info to
    debug, and a default-constructed [Settings] has the lowest one, quiet,
    under which no message is emitted. *)
Theorem verbosity_levels_ordered :
  verbosity_quiet < verbosity_warning /\ verbosity_warning < verbosity_info /\
  verbosity_info < verbosity_debug /\
  verbosity Settings_default = verbosity_quiet /\
  Forall (fun level => verbosity Settings_default <= level) verbosity_all.
Proof.
  split; [reflexivity |]. split; [reflexivity |]. split; [reflexivity |].
  split; [reflexivity |]. repeat constructor; vm_compute; discriminate.
Qed.

(** * The scripted sockets: frame lemmas *)

Lemma set_sock_lookup fd s w : socks (set_sock fd s w) !! fd = Some s.
Proof. unfold set_sock; simpl. apply lookup_insert_eq. Qed.

Lemma set_sock_twice fd s1 s2 w :
  set_sock fd s2 (set_sock fd s1 w) = set_sock fd s2 w.
Proof. unfold set_sock; simpl. by rewrite insert_insert_eq. Qed.

Lemma set_sock_same fd s w : socks w !! fd = Some s -> set_sock fd s w = w.
Proof.
  intros Hs. destruct w as [m r d]; unfold set_sock; simpl in *.
  by rewrite insert_id.
Qed.

Lemma on_sock_open {A} fd (bad : A) f w s :
  socks w !! fd = Some s ->
  on_sock fd bad f w = Some (fst (f s), set_sock fd (snd (f s)) w).
Proof. intros Hs. unfold on_sock. rewrite Hs. by destruct (f s). Qed.

Lemma on_sock_closed {A} fd (bad : A) f w :
  socks w !! fd = None -> on_sock fd bad f w = Some (bad, w).
Proof. intros Hs. unfold on_sock. by rewrite Hs. Qed.

Lemma sock_rx_set fd s w : sock_rx (set_sock fd s w) fd = rx s.
Proof. unfold sock_rx. by rewrite set_sock_lookup. Qed.

Lemma sock_tx_set fd s w : sock_tx (set_sock fd s w) fd = tx s.
Proof. unfold sock_tx. by rewrite set_sock_lookup. Qed.

Lemma sock_sent_set fd s w : sock_sent (set_sock fd s w) fd = sent s.
Proof. unfold sock_sent. by rewrite set_sock_lookup. Qed.

(** ** One recv, one poll *)

(** What a single nonblocking recv can do to a socket. *)
Lemma recv_step_cases count s :
  let '((e, bs), s') := recv_step count s in
  tx s' = tx s /\ sent s' = sent s /\
  rx_stream (rx s) = bs ++ rx_stream (rx s') /\
  (rx_weight (rx s') + length bs <= rx_weight (rx s))%nat /\
  (length (rx s') <= length (rx s))%nat /\
  (e = none ->
     (0 < length bs)%nat /\ Z.of_nat (length bs) <= count /\
     ((length (rx s') < length (rx s))%nat \/ Z.of_nat (length bs) = count)) /\
  (e <> none -> bs = []).
Proof.
  unfold recv_step. destruct (rx s) as [|[bs| | |e|] evs] eqn:Hrx; simpl;
    rewrite ?Hrx; simpl; try (repeat split; (lia || congruence || done)).
  - destruct (Z.to_nat (Z.min count (Z.of_nat (length bs)))) as [|n] eqn:Hn;
      simpl; rewrite ?Hrx; simpl.
    { repeat split; (lia || congruence || done). }
    assert (Hle : (S n <= length bs)%nat) by lia.
    pose proof (take_drop (S n) bs) as Htd.
    assert (Hlt : length (take (S n) bs) = S n) by (rewrite length_take; lia).
    assert (Hld : length (drop (S n) bs) = (length bs - S n)%nat)
      by apply length_drop.
    destruct (drop (S n) bs) as [|b left] eqn:Hd; simpl.
    + rewrite app_nil_r in Htd. rewrite Htd. simpl in Hld.
      repeat split; intros; try (lia || congruence || done).
    + simpl in Hld.
      repeat split; intros; simpl; try (lia || congruence || done).
      rewrite <- Htd at 1. rewrite <- app_assoc. reflexivity.
  - destruct e; repeat split; (lia || congruence || done).
Qed.

(** What a single poll for readability can do to a socket. *)
Lemma wait_readable_step_cases tmo s :
  let '(e, s') := wait_readable_step tmo s in
  tx s' = tx s /\ sent s' = sent s /\
  rx_stream (rx s') = rx_stream (rx s) /\
  (rx_weight (rx s') <= rx_weight (rx s))%nat /\
  (length (rx s') <= length (rx s))%nat /\
  (e = none \/ e = interrupted \/ e = timed_out).
Proof.
  unfold wait_readable_step. destruct (rx s) as [|[bs|secs| |e|] evs] eqn:Hrx;
    simpl; rewrite ?Hrx; simpl; try (repeat split; (lia || tauto || done)).
  destruct (secs <? tmo); simpl; rewrite ?Hrx; simpl;
    repeat split; (lia || tauto || done).
Qed.

(** A recv that would block followed by a wait that says to go on has used
    up an event of the script. *)
Lemma recv_block_then_wait count tmo s :
  let '((e, _), s1) := recv_step count s in
  let '(e', s2) := wait_readable_step tmo s1 in
  e = operation_would_block -> e' = none \/ e' = interrupted ->
  (length (rx s2) < length (rx s))%nat.
Proof.
  pose proof (wait_readable_step_cases tmo) as Hw.
  unfold recv_step. destruct (rx s) as [|[bs|secs| |e|] evs] eqn:Hrx; simpl.
  - unfold wait_readable_step; rewrite Hrx. intros _ [?|?]; discriminate.
  - destruct (Z.to_nat _); simpl.
    + destruct (wait_readable_step tmo s); discriminate.
    + destruct (wait_readable_step tmo _); discriminate.
  - unfold wait_readable_step; rewrite Hrx.
    destruct (secs <? tmo); simpl; [lia | intros _ [?|?]; discriminate].
  - unfold wait_readable_step; rewrite Hrx; simpl; lia.
  - specialize (Hw {| rx := evs; tx := tx s; sent := sent s |}).
    destruct (wait_readable_step tmo _) as [e' s2]; simpl in *.
    intros _ _. lia.
  - destruct (wait_readable_step tmo s); discriminate.
Qed.

(** ** The loop of [netx_recvn] *)

(** Closes the arithmetic and equational side goals of the loop lemmas. *)
Ltac loop_facts :=
  repeat split; intros;
  repeat match goal with
         | H : ?P -> _, H' : ?P |- _ => specialize (H H')
         end;
  simpl in *; rewrite ?length_app in *; simpl in *;
  try (lia || congruence || done).

Lemma netx_recvn_loop_done fuel tmo fd count got w :
  count <= Z.of_nat (length got) ->
  netx_recvn_loop fuel tmo fd count got w = Some ((none, got), w).
Proof.
  intros Hle. destruct fuel; simpl;
    (destruct (Z.leb_spec count (Z.of_nat (length got))); [reflexivity | lia]).
Qed.

Lemma netx_recvn_loop_step fuel tmo fd count got w s :
  Z.of_nat (length got) < count -> socks w !! fd = Some s ->
  netx_recvn_loop (S fuel) tmo fd count got w =
  let '((e, bs), s1) := recv_step (count - Z.of_nat (length got)) s in
  let w1 := set_sock fd s1 w in
  match e with
  | none => netx_recvn_loop fuel tmo fd count (got ++ bs) w1
  | operation_would_block =>
      let '(e', s2) := wait_readable_step tmo s1 in
      match e' with
      | none | interrupted =>
          netx_recvn_loop fuel tmo fd count got (set_sock fd s2 w)
      | _ => Some ((e', got), set_sock fd s2 w)
      end
  | _ => Some ((e, got), w1)
  end.
Proof.
  intros Hlt Hs. simpl.
  destruct (Z.leb_spec count (Z.of_nat (length got))); [lia |].
  unfold bind, netx_recv_nonblocking. rewrite (on_sock_open _ _ _ _ _ Hs).
  destruct (recv_step _ s) as [[e bs] s1]; simpl.
  destruct e; try reflexivity.
  unfold netx_wait_readable.
  rewrite (on_sock_open _ _ _ _ _ (set_sock_lookup fd s1 w)).
  rewrite set_sock_twice.
  destruct (wait_readable_step tmo s1) as [e' s2]; simpl.
  destruct e'; reflexivity.
Qed.

(** The outcome of the loop on an open socket with fuel for its script. *)
Lemma netx_recvn_loop_run fuel : forall tmo fd count got w s,
  socks w !! fd = Some s -> (length (rx s) < fuel)%nat ->
  exists e moved s',
    netx_recvn_loop fuel tmo fd count got w
    = Some ((e, got ++ moved), set_sock fd s' w) /\
    tx s' = tx s /\ sent s' = sent s /\
    rx_stream (rx s) = moved ++ rx_stream (rx s') /\
    (rx_weight (rx s') + length moved <= rx_weight (rx s))%nat /\
    (e = none ->
       Z.of_nat (length (got ++ moved)) = Z.max count (Z.of_nat (length got))) /\
    (e <> none -> Z.of_nat (length (got ++ moved)) < count).
Proof.
  induction fuel as [|fuel IH]; intros tmo fd count got w s Hs Hfuel; [lia |].
  destruct (Z.le_gt_cases count (Z.of_nat (length got))) as [Hdone | Hmore].
  { exists none, [], s. rewrite app_nil_r, netx_recvn_loop_done by done.
    rewrite (set_sock_same _ _ _ Hs). loop_facts. }
  rewrite (netx_recvn_loop_step _ _ _ _ _ _ s) by (lia || done).
  pose proof (recv_step_cases (count - Z.of_nat (length got)) s) as Hr.
  pose proof (recv_block_then_wait (count - Z.of_nat (length got)) tmo s) as Hb.
  destruct (recv_step _ s) as [[e bs] s1].
  destruct Hr as (Htx & Hsent & Hstr & Hwt & Hlen & Hok & Hbad).
  assert (Herr : e <> none -> e <> operation_would_block ->
    exists e0 moved s',
      Some ((e, got), set_sock fd s1 w) = Some ((e0, got ++ moved), set_sock fd s' w) /\
      tx s' = tx s /\ sent s' = sent s /\
      rx_stream (rx s) = moved ++ rx_stream (rx s') /\
      (rx_weight (rx s') + length moved <= rx_weight (rx s))%nat /\
      (e0 = none ->
       Z.of_nat (length (got ++ moved)) = Z.max count (Z.of_nat (length got))) /\
      (e0 <> none -> Z.of_nat (length (got ++ moved)) < count)).
  { intros Hne _. specialize (Hbad Hne). subst bs.
    exists e, [], s1. rewrite app_nil_r. loop_facts. }
  destruct e; try (apply Herr; discriminate); clear Herr; simpl.
  - (* the recv moved bytes *)
    destruct (Hok eq_refl) as (Hpos & Hfit & Hcase).
    destruct Hcase as [Hshort | Hfull].
    + destruct (IH tmo fd count (got ++ bs) (set_sock fd s1 w) s1)
        as (e & moved & s' & Hrun & Htx' & Hsent' & Hstr' & Hwt' & Hnone & Hsome);
        [apply set_sock_lookup | lia |].
      exists e, (bs ++ moved), s'. rewrite set_sock_twice in Hrun.
      rewrite app_assoc, Hrun.
      assert (Hstr2 : rx_stream (rx s) = (bs ++ moved) ++ rx_stream (rx s'))
        by (rewrite Hstr, Hstr'; apply app_assoc).
      loop_facts.
    + exists none, bs, s1. rewrite netx_recvn_loop_done
        by (rewrite length_app; lia).
      loop_facts.
  - (* the recv would block: wait, then go on or give up *)
    pose proof (wait_readable_step_cases tmo s1) as Hw.
    destruct (wait_readable_step tmo s1) as [e' s2].
    destruct Hw as (Htx2 & Hsent2 & Hstr2 & Hwt2 & Hlen2 & He').
    rewrite (Hbad ltac:(discriminate)) in *; simpl in *.
    assert (Hgo : e' = none \/ e' = interrupted ->
      exists e0 moved s',
        netx_recvn_loop fuel tmo fd count got (set_sock fd s2 w)
        = Some ((e0, got ++ moved), set_sock fd s' w) /\
        tx s' = tx s /\ sent s' = sent s /\
        rx_stream (rx s) = moved ++ rx_stream (rx s') /\
        (rx_weight (rx s') + length moved <= rx_weight (rx s))%nat /\
        (e0 = none ->
         Z.of_nat (length (got ++ moved)) = Z.max count (Z.of_nat (length got))) /\
        (e0 <> none -> Z.of_nat (length (got ++ moved)) < count)).
    { intros Hcont. specialize (Hb eq_refl Hcont).
      destruct (IH tmo fd count got (set_sock fd s2 w) s2)
        as (e & moved & s' & Hrun & Htx' & Hsent' & Hstr' & Hwt' & Hnone & Hsome);
        [apply set_sock_lookup | lia |].
      exists e, moved, s'. rewrite set_sock_twice in Hrun. rewrite Hrun.
      loop_facts. }
    destruct He' as [-> | [-> | ->]]; [apply Hgo; tauto | apply Hgo; tauto |].
    exists timed_out, [], s2. rewrite app_nil_r. loop_facts.
Qed.

(** ** The loop on a paced script *)

(** On a script that starts with paced events carrying enough bytes, the
    loop fills the buffer and leaves the rest of the script paced. *)
Lemma netx_recvn_loop_paced pre : forall fuel tmo fd count got w s rest,
  socks w !! fd = Some s -> rx s = pre ++ rest -> rx_paced tmo pre = true ->
  (length pre < fuel)%nat ->
  Z.of_nat (length got) <= count <=
    Z.of_nat (length got + length (rx_stream pre)) ->
  let k := Z.to_nat (count - Z.of_nat (length got)) in
  exists s' pre',
    netx_recvn_loop fuel tmo fd count got w
    = Some ((none, got ++ take k (rx_stream pre)), set_sock fd s' w) /\
    tx s' = tx s /\ sent s' = sent s /\
    rx s' = pre' ++ rest /\ rx_paced tmo pre' = true /\
    rx_stream pre' = drop k (rx_stream pre).
Proof.
  induction pre as [|ev pre IH];
    intros fuel tmo fd count got w s rest Hs Hrx Hpaced Hfuel Hcount k.
  { simpl in *. exists s, []. rewrite netx_recvn_loop_done by lia.
    rewrite (set_sock_same _ _ _ Hs), take_nil, drop_nil, app_nil_r. done. }
  destruct (Z.le_gt_cases count (Z.of_nat (length got))) as [Hdone | Hmore].
  { exists s, (ev :: pre). rewrite netx_recvn_loop_done by lia.
    rewrite (set_sock_same _ _ _ Hs).
    replace k with O by lia. by rewrite take_0, drop_0, app_nil_r. }
  destruct fuel as [|fuel]; [simpl in Hfuel; lia |].
  rewrite (netx_recvn_loop_step _ _ _ _ _ _ s) by (lia || done).
  simpl in Hpaced. apply andb_true_iff in Hpaced as [Hev Hpaced].
  unfold recv_step, wait_readable_step. rewrite Hrx. simpl in Hfuel.
  destruct ev as [bs|secs| |e|]; simpl in Hev; try discriminate.
  - (* bytes have arrived *)
    simpl.
    apply negb_true_iff, Nat.eqb_neq in Hev.
    cbn [rx_stream] in Hcount. rewrite length_app in Hcount.
    destruct (Z.to_nat (Z.min _ (Z.of_nat (length bs)))) as [|n] eqn:Hn; [lia |].
    pose proof (take_drop (S n) bs) as Htd.
    assert (Hld : length (drop (S n) bs) = (length bs - S n)%nat)
      by apply length_drop.
    destruct (drop (S n) bs) as [|b left] eqn:Hd; simpl in Hld.
    + (* the whole chunk fits *)
      rewrite app_nil_r in Htd. rewrite Htd.
      destruct (IH fuel tmo fd count (got ++ bs)
                  (set_sock fd {| rx := pre ++ rest; tx := tx s; sent := sent s |} w)
                  {| rx := pre ++ rest; tx := tx s; sent := sent s |} rest)
        as (s' & pre' & Hrun & Htx & Hsent & Hrx' & Hp' & Hstr');
        [apply set_sock_lookup | done | done | lia
        | rewrite length_app; lia |].
      exists s', pre'. rewrite set_sock_twice in Hrun. rewrite Hrun.
      rewrite length_app in *.
      replace (Z.to_nat (count - Z.of_nat (length got + length bs)))
        with (k - length bs)%nat in * by lia.
      rewrite firstn_app, skipn_app, (firstn_all2 bs), (skipn_all2 bs) by lia.
      rewrite <- app_assoc. done.
    + (* the chunk is more than was asked for *)
      rewrite netx_recvn_loop_done by (rewrite length_app, length_take; lia).
      exists {| rx := RxData (b :: left) :: pre ++ rest; tx := tx s; sent := sent s |},
             (RxData (b :: left) :: pre).
      assert (Hk : k = S n) by lia.
      rewrite firstn_app, skipn_app, Hk, Hd.
      replace (S n - length bs)%nat with O by lia.
      rewrite take_0, drop_0, app_nil_r. repeat split; done.
  - (* a short silence *)
    cbn [rx app]. rewrite Hrx. cbn [rx app]. rewrite Hev. cbn [rx_stream].
    destruct (IH fuel tmo fd count got
                (set_sock fd {| rx := pre ++ rest; tx := tx s; sent := sent s |} w)
                {| rx := pre ++ rest; tx := tx s; sent := sent s |} rest)
      as (s' & pre' & Hrun & Htx & Hsent & Hrx' & Hp' & Hstr');
      [apply set_sock_lookup | done | done | lia | done |].
    exists s', pre'. rewrite set_sock_twice in Hrun. by rewrite Hrun.
  - (* a signal *)
    cbn [rx app]. rewrite Hrx. cbn [rx app rx_stream].
    destruct (IH fuel tmo fd count got
                (set_sock fd {| rx := pre ++ rest; tx := tx s; sent := sent s |} w)
                {| rx := pre ++ rest; tx := tx s; sent := sent s |} rest)
      as (s' & pre' & Hrun & Htx & Hsent & Hrx' & Hp' & Hstr');
      [apply set_sock_lookup | done | done | lia | done |].
    exists s', pre'. rewrite set_sock_twice in Hrun. by rewrite Hrun.
Qed.

(** On a script that stalls after paced events carrying too few bytes, the
    loop moves what there is and then reports the timeout. *)
Lemma netx_recvn_loop_stalls pre : forall fuel tmo fd count got w s rest,
  socks w !! fd = Some s -> rx s = pre ++ rest ->
  rx_paced tmo pre = true -> rx_stalls tmo rest = true ->
  (length pre < fuel)%nat ->
  Z.of_nat (length got + length (rx_stream pre)) < count ->
  exists s',
    netx_recvn_loop fuel tmo fd count got w
    = Some ((timed_out, got ++ rx_stream pre), set_sock fd s' w) /\
    tx s' = tx s /\ sent s' = sent s /\
    rx_stream (rx s') = rx_stream rest.
Proof.
  induction pre as [|ev pre IH];
    intros fuel tmo fd count got w s rest Hs Hrx Hpaced Hstall Hfuel Hcount;
    (destruct fuel as [|fuel]; [simpl in Hfuel; lia |]);
    rewrite (netx_recvn_loop_step _ _ _ _ _ _ s) by (lia || done);
    unfold recv_step, wait_readable_step; rewrite Hrx.
  - (* the stall itself *)
    cbn [rx_stream app]. rewrite app_nil_r.
    destruct rest as [|[bs|secs| |e|] rest]; simpl in Hstall; try discriminate.
    + exists s. cbn [rx]. rewrite Hrx. simpl.
      by rewrite (set_sock_same _ _ _ Hs).
    + cbn [rx app]. rewrite Hrx. cbn [rx app].
      destruct (Z.ltb_spec secs tmo); [lia |].
      eexists. repeat split; reflexivity.
  - simpl in Hpaced. apply andb_true_iff in Hpaced as [Hev Hpaced].
    simpl in Hfuel.
    destruct ev as [bs|secs| |e|]; simpl in Hev; try discriminate.
    + (* bytes have arrived, all of them wanted *)
      apply negb_true_iff, Nat.eqb_neq in Hev.
      cbn [rx_stream] in *. rewrite length_app in Hcount. simpl.
      destruct (Z.to_nat (Z.min _ (Z.of_nat (length bs)))) as [|n] eqn:Hn; [lia |].
      rewrite (drop_ge bs (S n)), (take_ge bs (S n)) by lia.
      destruct (IH fuel tmo fd count (got ++ bs)
                  (set_sock fd {| rx := pre ++ rest; tx := tx s; sent := sent s |} w)
                  {| rx := pre ++ rest; tx := tx s; sent := sent s |} rest)
        as (s' & Hrun & Htx & Hsent & Hstr);
        [apply set_sock_lookup | done | done | done | lia
        | rewrite length_app; lia |].
      exists s'. rewrite set_sock_twice in Hrun. rewrite Hrun.
      by rewrite <- app_assoc.
    + (* a short silence *)
      cbn [rx app]. rewrite Hrx. cbn [rx app]. rewrite Hev. cbn [rx_stream] in *.
      destruct (IH fuel tmo fd count got
                  (set_sock fd {| rx := pre ++ rest; tx := tx s; sent := sent s |} w)
                  {| rx := pre ++ rest; tx := tx s; sent := sent s |} rest)
        as (s' & Hrun & Htx & Hsent & Hstr);
        [apply set_sock_lookup | done | done | done | lia | done |].
      exists s'. rewrite set_sock_twice in Hrun. by rewrite Hrun.
    + (* a signal *)
      cbn [rx app]. rewrite Hrx. cbn [rx app rx_stream] in *.
      destruct (IH fuel tmo fd count got
                  (set_sock fd {| rx := pre ++ rest; tx := tx s; sent := sent s |} w)
                  {| rx := pre ++ rest; tx := tx s; sent := sent s |} rest)
        as (s' & Hrun & Htx & Hsent & Hstr);
        [apply set_sock_lookup | done | done | done | lia | done |].
      exists s'. rewrite set_sock_twice in Hrun. by rewrite Hrun.
Qed.

(** The loop on a descriptor that is not open. *)
Lemma netx_recvn_loop_closed fuel tmo fd count got w :
  socks w !! fd = None ->
  netx_recvn_loop (S fuel) tmo fd count got w
  = Some ((if count <=? Z.of_nat (length got) then none else io_error, got), w).
Proof.
  intros Hs. simpl. destruct (count <=? Z.of_nat (length got)); [done |].
  unfold bind, netx_recv_nonblocking. by rewrite on_sock_closed.
Qed.

(** ** One send, one poll for room *)

(** What a single nonblocking send can do to a socket. *)
Lemma send_step_cases data s :
  let '((e, n), s') := send_step data s in
  rx s' = rx s /\ sent s' = sent s ++ take (Z.to_nat n) data /\
  0 <= n <= Z.of_nat (length data) /\
  (length (tx s') <= length (tx s))%nat /\
  (e = none -> data <> [] ->
     0 < n /\ ((length (tx s') < length (tx s))%nat \/ n = Z.of_nat (length data))) /\
  (e <> none -> n = 0).
Proof.
  unfold send_step. destruct (tx s) as [|[n|secs| |e] evs] eqn:Htx; simpl;
    rewrite ?Htx, ?app_nil_r; simpl;
    try (repeat split; (lia || congruence || done)).
  - destruct (Z.leb_spec n 0); simpl; rewrite ?Htx, ?app_nil_r; simpl.
    { repeat split; (lia || congruence || done). }
    destruct (Z.ltb_spec (Z.min n (Z.of_nat (length data))) n); simpl;
      repeat split; try (lia || congruence || done);
      destruct data; (done || simpl in *; lia).
  - destruct e; repeat split; (lia || congruence || done).
Qed.

(** What a single poll for writability can do to a socket. *)
Lemma wait_writeable_step_cases tmo s :
  let '(e, s') := wait_writeable_step tmo s in
  rx s' = rx s /\ sent s' = sent s /\
  (length (tx s') <= length (tx s))%nat /\
  (e = none \/ e = interrupted \/ e = timed_out).
Proof.
  unfold wait_writeable_step. destruct (tx s) as [|[n|secs| |e] evs] eqn:Htx;
    simpl; rewrite ?Htx; simpl; try (repeat split; (lia || tauto || done)).
  destruct (secs <? tmo); simpl; rewrite ?Htx; simpl;
    repeat split; (lia || tauto || done).
Qed.

Lemma send_block_then_wait data tmo s :
  let '((e, _), s1) := send_step data s in
  let '(e', s2) := wait_writeable_step tmo s1 in
  e = operation_would_block -> e' = none \/ e' = interrupted ->
  (length (tx s2) < length (tx s))%nat.
Proof.
  pose proof (wait_writeable_step_cases tmo) as Hw.
  unfold send_step. destruct (tx s) as [|[n|secs| |e] evs] eqn:Htx; simpl.
  - unfold wait_writeable_step; rewrite Htx. intros _ [?|?]; discriminate.
  - destruct (n <=? 0); simpl.
    + specialize (Hw {| rx := rx s; tx := evs; sent := sent s |}).
      destruct (wait_writeable_step tmo _) as [e' s2]; simpl in *.
      intros _ _. lia.
    + destruct (wait_writeable_step tmo _); discriminate.
  - unfold wait_writeable_step; rewrite Htx.
    destruct (secs <? tmo); simpl; [lia | intros _ [?|?]; discriminate].
  - unfold wait_writeable_step; rewrite Htx; simpl; lia.
  - specialize (Hw {| rx := rx s; tx := evs; sent := sent s |}).
    destruct (wait_writeable_step tmo _) as [e' s2]; simpl in *.
    intros _ _. lia.
Qed.

(** ** The loop of [netx_sendn] *)

Lemma netx_sendn_loop_done fuel tmo fd data off w :
  Z.of_nat (length data) <= off ->
  netx_sendn_loop fuel tmo fd data off w = Some ((none, off), w).
Proof.
  intros Hle. destruct fuel; simpl;
    (destruct (Z.leb_spec (Z.of_nat (length data)) off); [reflexivity | lia]).
Qed.

Lemma netx_sendn_loop_step fuel tmo fd data off w s :
  off < Z.of_nat (length data) -> socks w !! fd = Some s ->
  netx_sendn_loop (S fuel) tmo fd data off w =
  let '((e, n), s1) := send_step (drop (Z.to_nat off) data) s in
  let w1 := set_sock fd s1 w in
  match e with
  | none => netx_sendn_loop fuel tmo fd data (off + n) w1
  | operation_would_block =>
      let '(e', s2) := wait_writeable_step tmo s1 in
      match e' with
      | none | interrupted =>
          netx_sendn_loop fuel tmo fd data off (set_sock fd s2 w)
      | _ => Some ((e', off), set_sock fd s2 w)
      end
  | _ => Some ((e, off), w1)
  end.
Proof.
  intros Hlt Hs. simpl.
  destruct (Z.leb_spec (Z.of_nat (length data)) off); [lia |].
  unfold bind, netx_send_nonblocking. rewrite (on_sock_open _ _ _ _ _ Hs).
  destruct (send_step _ s) as [[e n] s1]; simpl.
  destruct e; try reflexivity.
  unfold netx_wait_writeable.
  rewrite (on_sock_open _ _ _ _ _ (set_sock_lookup fd s1 w)).
  rewrite set_sock_twice.
  destruct (wait_writeable_step tmo s1) as [e' s2]; simpl.
  destruct e'; reflexivity.
Qed.

Lemma take_drop_more {A} (l : list A) (a b : nat) :
  take a l ++ take b (drop a l) = take (a + b) l.
Proof.
  rewrite <- (take_drop a l) at 3.
  destruct (decide (a <= length l)%nat) as [Hle | Hgt].
  - rewrite take_app_ge by (rewrite length_take; lia).
    rewrite length_take. by replace (a + b - a `min` length l)%nat with b by lia.
  - rewrite (drop_ge l a), take_nil, !app_nil_r by lia.
    rewrite !take_ge; (done || lia).
Qed.

(** The outcome of the loop on an open socket with fuel for its script. *)
Lemma netx_sendn_loop_run fuel : forall tmo fd data off w s,
  socks w !! fd = Some s -> (length (tx s) < fuel)%nat -> 0 <= off ->
  exists e off' s',
    netx_sendn_loop fuel tmo fd data off w
    = Some ((e, off'), set_sock fd s' w) /\
    rx s' = rx s /\ off <= off' /\
    sent s' = sent s ++ take (Z.to_nat (off' - off)) (drop (Z.to_nat off) data) /\
    (e = none -> off' = Z.max off (Z.of_nat (length data))) /\
    (e <> none -> off' < Z.of_nat (length data)).
Proof.
  induction fuel as [|fuel IH]; intros tmo fd data off w s Hs Hfuel Hoff; [lia |].
  destruct (Z.le_gt_cases (Z.of_nat (length data)) off) as [Hdone | Hmore].
  { exists none, off, s. rewrite netx_sendn_loop_done by done.
    rewrite (set_sock_same _ _ _ Hs), Z.sub_diag, take_0, app_nil_r.
    repeat split; (lia || done). }
  rewrite (netx_sendn_loop_step _ _ _ _ _ _ s) by (lia || done).
  pose proof (send_step_cases (drop (Z.to_nat off) data) s) as Hr.
  pose proof (send_block_then_wait (drop (Z.to_nat off) data) tmo s) as Hb.
  destruct (send_step _ s) as [[e n] s1].
  destruct Hr as (Hrx & Hsent & Hn & Hlen & Hok & Hbad).
  rewrite length_drop in Hn.
  assert (Herr : e <> none -> e <> operation_would_block ->
    exists e0 off' s',
      Some ((e, off), set_sock fd s1 w) = Some ((e0, off'), set_sock fd s' w) /\
      rx s' = rx s /\ off <= off' /\
      sent s' = sent s ++ take (Z.to_nat (off' - off)) (drop (Z.to_nat off) data) /\
      (e0 = none -> off' = Z.max off (Z.of_nat (length data))) /\
      (e0 <> none -> off' < Z.of_nat (length data))).
  { intros Hne _. specialize (Hbad Hne). subst n.
    exists e, off, s1. rewrite Z.sub_diag. simpl in Hsent.
    repeat split; (lia || done). }
  destruct e; try (apply Herr; discriminate); clear Herr; simpl.
  - (* the send took bytes *)
    destruct (Hok eq_refl) as (Hpos & Hcase).
    { intros Hnil. apply (f_equal length) in Hnil.
      rewrite length_drop in Hnil. simpl in Hnil. lia. }
    rewrite length_drop in Hcase.
    destruct Hcase as [Hshort | Hfull].
    + destruct (IH tmo fd data (off + n) (set_sock fd s1 w) s1)
        as (e & off' & s' & Hrun & Hrx' & Hoff' & Hsent' & Hnone & Hsome);
        [apply set_sock_lookup | lia | lia |].
      exists e, off', s'. rewrite set_sock_twice in Hrun. rewrite Hrun.
      repeat split; try (lia || congruence);
        try (intros He; try specialize (Hnone He); try specialize (Hsome He); lia).
      rewrite Hsent', Hsent, <- app_assoc. f_equal.
      replace (Z.to_nat (off + n)) with (Z.to_nat off + Z.to_nat n)%nat by lia.
      rewrite <- drop_drop, take_drop_more. f_equal. lia.
    + exists none, (off + n), s1. rewrite netx_sendn_loop_done by lia.
      replace (off + n - off) with n by lia.
      repeat split; (lia || done).
  - (* the send would block: wait, then go on or give up *)
    pose proof (wait_writeable_step_cases tmo s1) as Hw.
    destruct (wait_writeable_step tmo s1) as [e' s2].
    destruct Hw as (Hrx2 & Hsent2 & Hlen2 & He').
    rewrite (Hbad ltac:(discriminate)) in *; simpl in Hsent.
    rewrite app_nil_r in Hsent.
    assert (Hgo : e' = none \/ e' = interrupted ->
      exists e0 off' s',
        netx_sendn_loop fuel tmo fd data off (set_sock fd s2 w)
        = Some ((e0, off'), set_sock fd s' w) /\
        rx s' = rx s /\ off <= off' /\
        sent s' = sent s ++ take (Z.to_nat (off' - off)) (drop (Z.to_nat off) data) /\
        (e0 = none -> off' = Z.max off (Z.of_nat (length data))) /\
        (e0 <> none -> off' < Z.of_nat (length data))).
    { intros Hcont. specialize (Hb eq_refl Hcont).
      destruct (IH tmo fd data off (set_sock fd s2 w) s2)
        as (e & off' & s' & Hrun & Hrx' & Hoff' & Hsent' & Hnone & Hsome);
        [apply set_sock_lookup | lia | lia |].
      exists e, off', s'. rewrite set_sock_twice in Hrun. rewrite Hrun.
      repeat split; try (lia || congruence || assumption). }
    destruct He' as [-> | [-> | ->]]; [apply Hgo; tauto | apply Hgo; tauto |].
    exists timed_out, off, s2. rewrite Z.sub_diag, take_0, app_nil_r.
    repeat split; try (lia || congruence).
Qed.

Lemma tx_capacity_nonneg evs : 0 <= tx_capacity evs.
Proof. induction evs as [|[n|secs| |e] evs IH]; simpl; lia. Qed.

(** On a script that starts with paced events offering enough room, the
    loop sends all of [data] and leaves the rest of the script paced. *)
Lemma netx_sendn_loop_paced pre : forall fuel tmo fd data off w s rest,
  socks w !! fd = Some s -> tx s = pre ++ rest -> tx_paced tmo pre = true ->
  (length pre < fuel)%nat ->
  0 <= off <= Z.of_nat (length data) ->
  Z.of_nat (length data) - off <= tx_capacity pre ->
  exists s' pre',
    netx_sendn_loop fuel tmo fd data off w
    = Some ((none, Z.of_nat (length data)), set_sock fd s' w) /\
    rx s' = rx s /\ sent s' = sent s ++ drop (Z.to_nat off) data /\
    tx s' = pre' ++ rest /\ tx_paced tmo pre' = true /\
    tx_capacity pre' = tx_capacity pre - (Z.of_nat (length data) - off).
Proof.
  induction pre as [|ev pre IH];
    intros fuel tmo fd data off w s rest Hs Htx Hpaced Hfuel Hoff Hcap.
  { simpl in *. exists s, []. rewrite netx_sendn_loop_done by lia.
    rewrite (set_sock_same _ _ _ Hs), drop_ge, app_nil_r by lia.
    replace off with (Z.of_nat (length data)) by lia. repeat split; (done || simpl; lia). }
  destruct (Z.le_gt_cases (Z.of_nat (length data)) off) as [Hdone | Hmore].
  { exists s, (ev :: pre). rewrite netx_sendn_loop_done by lia.
    rewrite (set_sock_same _ _ _ Hs), drop_ge, app_nil_r by lia.
    replace off with (Z.of_nat (length data)) by lia. repeat split; (done || lia). }
  destruct fuel as [|fuel]; [simpl in Hfuel; lia |].
  rewrite (netx_sendn_loop_step _ _ _ _ _ _ s) by (lia || done).
  simpl in Hpaced. apply andb_true_iff in Hpaced as [Hev Hpaced].
  unfold send_step, wait_writeable_step. rewrite Htx. simpl in Hfuel.
  destruct ev as [n|secs| |e]; simpl in Hev; try discriminate.
  - (* the buffer has room *)
    apply Z.ltb_lt in Hev. cbn [tx_capacity] in *. cbn [app].
    destruct (Z.leb_spec n 0); [lia |]. rewrite length_drop.
    destruct (Z.ltb_spec (Z.min n (Z.of_nat (length data - Z.to_nat off))) n)
      as [Hless | Hall]; cbn [fst snd].
    + (* room to spare *)
      rewrite netx_sendn_loop_done by lia.
      replace (Z.min n (Z.of_nat (length data - Z.to_nat off)))
        with (Z.of_nat (length data) - off) by lia.
      replace (off + (Z.of_nat (length data) - off))
        with (Z.of_nat (length data)) by lia.
      rewrite take_ge by (rewrite length_drop; lia).
      eexists _, (TxRoom _ :: pre). split; [reflexivity |]. cbn [rx tx sent].
      repeat split; try reflexivity.
      * simpl. rewrite Hpaced, andb_true_r. apply Z.ltb_lt. lia.
      * simpl. lia.
    + (* the room is used up *)
      replace (Z.min n (Z.of_nat (length data - Z.to_nat off))) with n by lia.
      destruct (IH fuel tmo fd data (off + n)
                  (set_sock fd {| rx := rx s; tx := pre ++ rest;
                                  sent := sent s ++ take (Z.to_nat n)
                                            (drop (Z.to_nat off) data) |} w)
                  {| rx := rx s; tx := pre ++ rest;
                     sent := sent s ++ take (Z.to_nat n)
                               (drop (Z.to_nat off) data) |} rest)
        as (s' & pre' & Hrun & Hrx' & Hsent' & Htx' & Hp' & Hcap');
        [apply set_sock_lookup | done | done | lia | lia | lia |].
      exists s', pre'. rewrite set_sock_twice in Hrun. rewrite Hrun.
      cbn [rx sent] in *. repeat split; try (done || lia).
      rewrite Hsent', <- app_assoc. f_equal.
      replace (Z.to_nat (off + n)) with (Z.to_nat off + Z.to_nat n)%nat by lia.
      rewrite <- drop_drop. apply take_drop.
  - (* a short wait for room *)
    cbn [tx app]. rewrite Htx. cbn [tx app]. rewrite Hev. cbn [tx_capacity] in *.
    destruct (IH fuel tmo fd data off
                (set_sock fd {| rx := rx s; tx := pre ++ rest; sent := sent s |} w)
                {| rx := rx s; tx := pre ++ rest; sent := sent s |} rest)
      as (s' & pre' & Hrun & Hrx' & Hsent' & Htx' & Hp' & Hcap');
      [apply set_sock_lookup | done | done | lia | lia | lia |].
    exists s', pre'. rewrite set_sock_twice in Hrun. by rewrite Hrun.
  - (* a signal *)
    cbn [tx app]. rewrite Htx. cbn [tx app tx_capacity] in *.
    destruct (IH fuel tmo fd data off
                (set_sock fd {| rx := rx s; tx := pre ++ rest; sent := sent s |} w)
                {| rx := rx s; tx := pre ++ rest; sent := sent s |} rest)
      as (s' & pre' & Hrun & Hrx' & Hsent' & Htx' & Hp' & Hcap');
      [apply set_sock_lookup | done | done | lia | lia | lia |].
    exists s', pre'. rewrite set_sock_twice in Hrun. by rewrite Hrun.
Qed.

(** On a script that stalls after paced events offering too little room,
    the loop sends what fits and then reports the timeout. *)
Lemma netx_sendn_loop_stalls pre : forall fuel tmo fd data off w s rest,
  socks w !! fd = Some s -> tx s = pre ++ rest ->
  tx_paced tmo pre = true -> tx_stalls tmo rest = true ->
  (length pre < fuel)%nat -> 0 <= off ->
  off + tx_capacity pre < Z.of_nat (length data) ->
  exists s',
    netx_sendn_loop fuel tmo fd data off w
    = Some ((timed_out, off + tx_capacity pre), set_sock fd s' w) /\
    rx s' = rx s /\
    sent s' = sent s ++ take (Z.to_nat (tx_capacity pre)) (drop (Z.to_nat off) data).
Proof.
  induction pre as [|ev pre IH];
    intros fuel tmo fd data off w s rest Hs Htx Hpaced Hstall Hfuel Hoff Hcap;
    match type of Hcap with
    | _ + tx_capacity ?p < _ => pose proof (tx_capacity_nonneg p) as Hnn
    end;
    (destruct fuel as [|fuel]; [simpl in Hfuel; lia |]);
    rewrite (netx_sendn_loop_step _ _ _ _ _ _ s) by (lia || done);
    unfold send_step, wait_writeable_step; rewrite Htx.
  - (* the stall itself *)
    cbn [tx_capacity app]. rewrite Z.add_0_r, take_0, app_nil_r.
    destruct rest as [|[n|secs| |e] rest]; simpl in Hstall; try discriminate.
    + exists s. cbn [tx]. rewrite Htx. simpl.
      by rewrite (set_sock_same _ _ _ Hs).
    + cbn [tx app]. rewrite Htx. cbn [tx app].
      destruct (Z.ltb_spec secs tmo); [lia |].
      eexists. repeat split; reflexivity.
  - simpl in Hpaced. apply andb_true_iff in Hpaced as [Hev Hpaced].
    simpl in Hfuel.
    destruct ev as [n|secs| |e]; simpl in Hev; try discriminate.
    + (* the buffer has room, less than is needed *)
      pose proof (tx_capacity_nonneg pre) as Hnn'.
      apply Z.ltb_lt in Hev. cbn [tx_capacity] in *. cbn [app].
      destruct (Z.leb_spec n 0); [lia |]. rewrite length_drop.
      destruct (Z.ltb_spec (Z.min n (Z.of_nat (length data - Z.to_nat off))) n)
        as [Hless | Hall]; cbn [fst snd]; [lia |].
      replace (Z.min n (Z.of_nat (length data - Z.to_nat off))) with n by lia.
      destruct (IH fuel tmo fd data (off + n)
                  (set_sock fd {| rx := rx s; tx := pre ++ rest;
                                  sent := sent s ++ take (Z.to_nat n)
                                            (drop (Z.to_nat off) data) |} w)
                  {| rx := rx s; tx := pre ++ rest;
                     sent := sent s ++ take (Z.to_nat n)
                               (drop (Z.to_nat off) data) |} rest)
        as (s' & Hrun & Hrx' & Hsent');
        [apply set_sock_lookup | done | done | done | lia | lia | lia |].
      exists s'. rewrite set_sock_twice in Hrun. rewrite Hrun.
      cbn [rx sent] in *.
      replace (off + n + tx_capacity pre)
        with (off + (Z.max 0 n + tx_capacity pre)) by lia.
      repeat split; try done.
      rewrite Hsent', <- app_assoc. f_equal.
        replace (Z.to_nat (off + n)) with (Z.to_nat off + Z.to_nat n)%nat by lia.
        rewrite <- drop_drop, take_drop_more. f_equal. lia.
    + (* a short wait for room *)
      cbn [tx app]. rewrite Htx. cbn [tx app]. rewrite Hev. cbn [tx_capacity] in *.
      destruct (IH fuel tmo fd data off
                  (set_sock fd {| rx := rx s; tx := pre ++ rest; sent := sent s |} w)
                  {| rx := rx s; tx := pre ++ rest; sent := sent s |} rest)
        as (s' & Hrun & Hrx' & Hsent');
        [apply set_sock_lookup | done | done | done | lia | lia | lia |].
      exists s'. rewrite set_sock_twice in Hrun. by rewrite Hrun.
    + (* a signal *)
      cbn [tx app]. rewrite Htx. cbn [tx app tx_capacity] in *.
      destruct (IH fuel tmo fd data off
                  (set_sock fd {| rx := rx s; tx := pre ++ rest; sent := sent s |} w)
                  {| rx := rx s; tx := pre ++ rest; sent := sent s |} rest)
        as (s' & Hrun & Hrx' & Hsent');
        [apply set_sock_lookup | done | done | done | lia | lia | lia |].
      exists s'. rewrite set_sock_twice in Hrun. by rewrite Hrun.
Qed.

(** The loop on a descriptor that is not open. *)
Lemma netx_sendn_loop_closed fuel tmo fd data off w :
  socks w !! fd = None ->
  netx_sendn_loop (S fuel) tmo fd data off w
  = Some ((if Z.of_nat (length data) <=? off then none else io_error, off), w).
Proof.
  intros Hs. simpl. destruct (Z.of_nat (length data) <=? off); [done |].
  unfold bind, netx_send_nonblocking. by rewrite on_sock_closed.
Qed.

(** ** [netx_recvn] and [netx_sendn] *)

Lemma sock_rx_open w fd s : socks w !! fd = Some s -> sock_rx w fd = rx s.
Proof. intros Hs. unfold sock_rx. by rewrite Hs. Qed.

Lemma sock_tx_open w fd s : socks w !! fd = Some s -> sock_tx w fd = tx s.
Proof. intros Hs. unfold sock_tx. by rewrite Hs. Qed.

Lemma sock_sent_open w fd s : socks w !! fd = Some s -> sock_sent w fd = sent s.
Proof. intros Hs. unfold sock_sent. by rewrite Hs. Qed.

Lemma netx_recvn_run st fd count w :
  0 <= count ->
  exists e got w',
    netx_recvn st fd count w = Some ((e, got), w') /\
    rx_stream (sock_rx w fd) = got ++ rx_stream (sock_rx w' fd) /\
    (rx_weight (sock_rx w' fd) + length got <= rx_weight (sock_rx w fd))%nat /\
    sock_tx w' fd = sock_tx w fd /\ sock_sent w' fd = sock_sent w fd /\
    rng w' = rng w /\ drawn w' = drawn w /\
    ((e = none /\ Z.of_nat (length got) = count) \/
     (e <> none /\ Z.of_nat (length got) < count)).
Proof.
  intros Hcount. unfold netx_recvn.
  destruct (socks w !! fd) as [s|] eqn:Hs.
  - rewrite (sock_rx_open _ _ _ Hs), (sock_tx_open _ _ _ Hs),
      (sock_sent_open _ _ _ Hs).
    destruct (netx_recvn_loop_run (S (length (rx s))) (timeout st) fd count [] w s)
      as (e & moved & s' & Hrun & Htx & Hsent & Hstr & Hwt & Hnone & Hsome);
      [done | lia |].
    exists e, moved, (set_sock fd s' w).
    rewrite sock_rx_set, sock_tx_set, sock_sent_set.
    split_and!; try done.
    destruct (decide (e = none)) as [He | He]; [left | right]; split; try done.
    + specialize (Hnone He). simpl in Hnone. lia.
    + by apply Hsome.
  - assert (Hrx : sock_rx w fd = []) by (unfold sock_rx; by rewrite Hs).
    rewrite Hrx, netx_recvn_loop_closed by done.
    change (Z.of_nat (length (@nil byte))) with 0.
    destruct (Z.leb_spec count 0).
    + exists none, [], w. rewrite Hrx.
      split_and!; try (done || simpl; lia). left. split; [done | simpl; lia].
    + exists io_error, [], w. rewrite Hrx.
      split_and!; try (done || simpl; lia). right. split; [done | simpl; lia].
Qed.

Lemma netx_sendn_run st fd data w :
  exists e n w',
    netx_sendn st fd data w = Some ((e, n), w') /\
    sock_sent w' fd = sock_sent w fd ++ take (Z.to_nat n) data /\
    sock_rx w' fd = sock_rx w fd /\
    rng w' = rng w /\ drawn w' = drawn w /\
    ((e = none /\ n = Z.of_nat (length data)) \/
     (e <> none /\ 0 <= n < Z.of_nat (length data))).
Proof.
  unfold netx_sendn.
  destruct (socks w !! fd) as [s|] eqn:Hs.
  - rewrite (sock_rx_open _ _ _ Hs), (sock_tx_open _ _ _ Hs),
      (sock_sent_open _ _ _ Hs).
    destruct (netx_sendn_loop_run (S (length (tx s))) (timeout st) fd data 0 w s)
      as (e & off' & s' & Hrun & Hrx & Hoff & Hsent & Hnone & Hsome);
      [done | lia | lia |].
    exists e, off', (set_sock fd s' w).
    rewrite sock_rx_set, sock_sent_set.
    rewrite Z.sub_0_r in Hsent. simpl in Hsent.
    split_and!; try done.
    destruct (decide (e = none)) as [He | He]; [left | right]; split; try done.
    + rewrite (Hnone He). lia.
    + specialize (Hsome He). lia.
  - assert (Htx : sock_tx w fd = []) by (unfold sock_tx; by rewrite Hs).
    assert (Hsent : sock_sent w fd = []) by (unfold sock_sent; by rewrite Hs).
    rewrite Htx, netx_sendn_loop_closed by done.
    destruct (Z.leb_spec (Z.of_nat (length data)) 0).
    + exists none, 0, w. rewrite Hsent. split_and!; try done.
      left. split; [done | lia].
    + exists io_error, 0, w. rewrite Hsent. split_and!; try done.
      right. split; [done | lia].
Qed.

(** C1: [netx_recvn] and [netx_sendn] always return; they either move
    exactly the requested count of bytes and return [none], or return an
    error after moving fewer; and when the socket stalls for the I/O
    timeout after partial progress, the error is [timed_out]. *)
Theorem netx_recvn_sendn_exact_or_error :
  (forall st fd count w, 0 <= count ->
     exists e got w',
       netx_recvn st fd count w = Some ((e, got), w') /\
       rx_stream (sock_rx w fd) = got ++ rx_stream (sock_rx w' fd) /\
       ((e = none /\ Z.of_nat (length got) = count) \/
        (e <> none /\ Z.of_nat (length got) < count))) /\
  (forall st fd data w,
     exists e n w',
       netx_sendn st fd data w = Some ((e, n), w') /\
       sock_sent w' fd = sock_sent w fd ++ take (Z.to_nat n) data /\
       ((e = none /\ n = Z.of_nat (length data)) \/
        (e <> none /\ 0 <= n < Z.of_nat (length data)))) /\
  (forall st fd count w s pre rest,
     socks w !! fd = Some s -> rx s = pre ++ rest ->
     rx_paced (timeout st) pre = true -> rx_stalls (timeout st) rest = true ->
     Z.of_nat (length (rx_stream pre)) < count ->
     exists w',
       netx_recvn st fd count w = Some ((timed_out, rx_stream pre), w')) /\
  (forall st fd data w s pre rest,
     socks w !! fd = Some s -> tx s = pre ++ rest ->
     tx_paced (timeout st) pre = true -> tx_stalls (timeout st) rest = true ->
     tx_capacity pre < Z.of_nat (length data) ->
     exists w',
       netx_sendn st fd data w = Some ((timed_out, tx_capacity pre), w') /\
       sock_sent w' fd
       = sock_sent w fd ++ take (Z.to_nat (tx_capacity pre)) data).
Proof.
  repeat split.
  - intros st fd count w Hcount.
    destruct (netx_recvn_run st fd count w Hcount)
      as (e & got & w' & Hrun & Hstr & _ & _ & _ & _ & _ & Hcase).
    by exists e, got, w'.
  - intros st fd data w.
    destruct (netx_sendn_run st fd data w)
      as (e & n & w' & Hrun & Hsent & _ & _ & _ & Hcase).
    by exists e, n, w'.
  - intros st fd count w s pre rest Hs Hrx Hpaced Hstall Hcount.
    unfold netx_recvn. rewrite (sock_rx_open _ _ _ Hs).
    destruct (netx_recvn_loop_stalls pre (S (length (rx s))) (timeout st)
                fd count [] w s rest)
      as (s' & Hrun & _); try done.
    + rewrite Hrx, length_app. lia.
    + exists (set_sock fd s' w). by rewrite Hrun.
  - intros st fd data w s pre rest Hs Htx Hpaced Hstall Hcap.
    unfold netx_sendn. rewrite (sock_tx_open _ _ _ Hs), (sock_sent_open _ _ _ Hs).
    destruct (netx_sendn_loop_stalls pre (S (length (tx s))) (timeout st)
                fd data 0 w s rest)
      as (s' & Hrun & _ & Hsent); try done.
    + rewrite Htx, length_app. lia.
    + exists (set_sock fd s' w). rewrite Hrun, sock_sent_set. by simpl in *.
Qed.

(** * Bytes as integers *)

Lemma Z_of_byte_range b : 0 <= Z_of_byte b < 256.
Proof.
  unfold Z_of_byte. pose proof (Byte.to_N_bounded b). lia.
Qed.

Lemma Z_of_byte_of_Z z : Z_of_byte (byte_of_Z z) = z mod 256.
Proof.
  unfold Z_of_byte, byte_of_Z.
  pose proof (Z.mod_pos_bound z 256 ltac:(lia)) as Hz.
  destruct (Byte.of_N (Z.to_N (z mod 256))) as [b|] eqn:Hb.
  - apply Byte.to_of_N in Hb. rewrite Hb. lia.
  - apply Byte.of_N_None_iff in Hb. lia.
Qed.

Lemma Z_of_byte_of_Z_small z : 0 <= z < 256 -> Z_of_byte (byte_of_Z z) = z.
Proof. intros Hz. rewrite Z_of_byte_of_Z. by apply Z.mod_small. Qed.

Lemma byte_of_Z_of_byte b : byte_of_Z (Z_of_byte b) = b.
Proof.
  unfold byte_of_Z. pose proof (Z_of_byte_range b) as Hb.
  rewrite Z.mod_small by done. unfold Z_of_byte.
  rewrite N2Z.id. by rewrite Byte.of_to_N.
Qed.

(** * [netx_recvn] and [netx_sendn] on paced scripts *)

Lemma netx_recvn_paced st fd (n : nat) w s pre rest :
  socks w !! fd = Some s -> rx s = pre ++ rest ->
  rx_paced (timeout st) pre = true ->
  (n <= length (rx_stream pre))%nat ->
  exists s' pre',
    netx_recvn st fd (Z.of_nat n) w
    = Some ((none, take n (rx_stream pre)), set_sock fd s' w) /\
    tx s' = tx s /\ sent s' = sent s /\
    rx s' = pre' ++ rest /\ rx_paced (timeout st) pre' = true /\
    rx_stream pre' = drop n (rx_stream pre).
Proof.
  intros Hs Hrx Hpaced Hn. unfold netx_recvn. rewrite (sock_rx_open _ _ _ Hs).
  destruct (netx_recvn_loop_paced pre (S (length (rx s))) (timeout st) fd
              (Z.of_nat n) [] w s rest)
    as (s' & pre' & Hrun & Hfacts); try done.
  - rewrite Hrx, length_app. lia.
  - simpl. lia.
  - exists s', pre'. cbn [length app] in Hrun, Hfacts.
    change (Z.of_nat 0) with 0 in *. rewrite Z.sub_0_r, Nat2Z.id in *.
    done.
Qed.

Lemma netx_sendn_paced st fd data w s pre rest :
  socks w !! fd = Some s -> tx s = pre ++ rest ->
  tx_paced (timeout st) pre = true ->
  Z.of_nat (length data) <= tx_capacity pre ->
  exists s' pre',
    netx_sendn st fd data w
    = Some ((none, Z.of_nat (length data)), set_sock fd s' w) /\
    rx s' = rx s /\ sent s' = sent s ++ data /\
    tx s' = pre' ++ rest /\ tx_paced (timeout st) pre' = true /\
    tx_capacity pre' = tx_capacity pre - Z.of_nat (length data).
Proof.
  intros Hs Htx Hpaced Hcap. unfold netx_sendn. rewrite (sock_tx_open _ _ _ Hs).
  destruct (netx_sendn_loop_paced pre (S (length (tx s))) (timeout st) fd
              data 0 w s rest)
    as (s' & pre' & Hrun & Hrx' & Hsent' & Htx' & Hp' & Hcap'); try done.
  - rewrite Htx, length_app. lia.
  - lia.
  - lia.
  - exists s', pre'. simpl in Hsent'. rewrite Z.sub_0_r in Hcap'. done.
Qed.

(** * The legacy codec *)

Lemma bind_run {A B} (m : M A) (k : A -> M B) w a w1 :
  m w = Some (a, w1) -> bind m k w = k a w1.
Proof. intros Hm. unfold bind. by rewrite Hm. Qed.

Lemma legacy_header_length code len : length (legacy_header code len) = 3%nat.
Proof. reflexivity. Qed.

(** The writer always returns; when its outcome is [none], the payload was
    short enough and the whole message went on the wire. *)
Lemma msg_write_legacy_err_run c code msg w :
  exists e w',
    msg_write_legacy_err c code msg w = Some (e, w') /\
    (e = none ->
     Z.of_nat (length msg) <= 65535 /\
     sock_sent w' (sock c) = sock_sent w (sock c) ++ legacy_message code msg).
Proof.
  unfold msg_write_legacy_err.
  destruct (Z.ltb_spec 65535 (Z.of_nat (length msg))) as [Hbig | Hfit].
  { exists message_size, w. split; [done | discriminate]. }
  destruct (netx_sendn_run (settings c) (sock c)
              (legacy_header code (Z.of_nat (length msg))) w)
    as (e1 & n1 & w1 & Hrun1 & Hsent1 & _ & _ & _ & Hcase1).
  rewrite (bind_run _ _ _ _ _ Hrun1).
  destruct Hcase1 as [[-> ->] | [Hne _]].
  - destruct (netx_sendn_run (settings c) (sock c) msg w1)
      as (e2 & n2 & w2 & Hrun2 & Hsent2 & _ & _ & _ & Hcase2).
    rewrite (bind_run _ _ _ _ _ Hrun2).
    exists e2, w2. split; [done |]. intros ->.
    destruct Hcase2 as [[_ ->] | [Hne _]]; [| done].
    split; [done |]. rewrite Hsent2, Hsent1, !Nat2Z.id.
    rewrite !take_ge by done. by rewrite <- app_assoc.
  - exists e1, w1. split; [by destruct e1 | done].
Qed.

Lemma msg_write_legacy_too_long c code msg w :
  65536 <= Z.of_nat (length msg) ->
  msg_write_legacy_err c code msg w = Some (message_size, w) /\
  msg_write_legacy c code msg w = Some (false, w).
Proof.
  intros Hbig. unfold msg_write_legacy, bind, msg_write_legacy_err.
  destruct (Z.ltb_spec 65535 (Z.of_nat (length msg))); [done | lia].
Qed.

(** On a socket that offers paced room for it, a message that is not too
    long is written in full. *)
Lemma msg_write_legacy_paced c code msg w s pre rest :
  socks w !! sock c = Some s -> tx s = pre ++ rest ->
  tx_paced (timeout (settings c)) pre = true ->
  Z.of_nat (length msg) <= 65535 ->
  3 + Z.of_nat (length msg) <= tx_capacity pre ->
  exists w', msg_write_legacy c code msg w = Some (true, w').
Proof.
  intros Hs Htx Hpaced Hfit Hcap.
  unfold msg_write_legacy, msg_write_legacy_err.
  destruct (Z.ltb_spec 65535 (Z.of_nat (length msg))); [lia |].
  destruct (netx_sendn_paced (settings c) (sock c)
              (legacy_header code (Z.of_nat (length msg))) w s pre rest)
    as (s1 & pre1 & Hrun1 & _ & _ & Htx1 & Hp1 & Hcap1); try done.
  { rewrite legacy_header_length. lia. }
  rewrite legacy_header_length in Hcap1.
  destruct (netx_sendn_paced (settings c) (sock c) msg
              (set_sock (sock c) s1 w) s1 pre1 rest)
    as (s2 & pre2 & Hrun2 & _); try done.
  { apply set_sock_lookup. }
  { lia. }
  unfold bind at 1. rewrite (bind_run _ _ _ _ _ Hrun1).
  rewrite (bind_run _ _ _ _ _ Hrun2). by eexists.
Qed.

(** A reader to which a paced script delivers a legacy message decodes its
    type and its payload. *)
Lemma msg_read_legacy_paced c code msg w s pre rest more :
  socks w !! sock c = Some s -> rx s = pre ++ rest ->
  rx_paced (timeout (settings c)) pre = true ->
  rx_stream pre = legacy_message code msg ++ more ->
  0 <= code < 256 -> Z.of_nat (length msg) <= 65535 ->
  exists w', msg_read_legacy c w = Some (Some (code, msg), w').
Proof.
  intros Hs Hrx Hpaced Hstr Hcode Hfit. unfold msg_read_legacy.
  destruct (netx_recvn_paced (settings c) (sock c) 3 w s pre rest)
    as (s1 & pre1 & Hrun1 & _ & _ & Hrx1 & Hp1 & Hstr1); try done.
  { rewrite Hstr, length_app. simpl. lia. }
  change (Z.of_nat 3) with 3 in Hrun1.
  rewrite (bind_run _ _ _ _ _ Hrun1).
  rewrite Hstr in Hrun1, Hstr1 |- *. unfold legacy_message, legacy_header in *.
  cbn [take drop app] in *. rewrite ?take_0, ?drop_0 in *.
  set (len := Z.of_nat (length msg)) in *.
  assert (Hhi : 0 <= len / 256 < 256)
    by (split; [apply Z.div_pos | apply Z.div_lt_upper_bound]; lia).
  pose proof (Z.mod_pos_bound len 256 ltac:(lia)) as Hlo.
  rewrite !Z_of_byte_of_Z_small by lia.
  replace (256 * (len / 256) + len mod 256) with len
    by (rewrite (Z.div_mod len 256) at 1; lia).
  destruct (netx_recvn_paced (settings c) (sock c) (length msg)
              (set_sock (sock c) s1 w) s1 pre1 rest)
    as (s2 & pre2 & Hrun2 & _); try done.
  { apply set_sock_lookup. }
  { rewrite Hstr1, length_app. lia. }
  fold len in Hrun2. rewrite (bind_run _ _ _ _ _ Hrun2).
  rewrite Hstr1, take_app_length. by eexists.
Qed.

(** C2: what [msg_write_legacy] has written, [msg_read_legacy] reads back
    as the same type and payload, for every type byte and every payload the
    writer accepts; the writer accepts every payload of up to 65535 bytes
    (so of 0, 1 and 65535 bytes) when the socket takes it; and for every
    payload of 65536 bytes or more it fails with [message_size], writing
    nothing. *)
Theorem legacy_codec_roundtrip :
  (forall cw cr code msg ww ww' wr s pre rest,
     0 <= code < 256 ->
     msg_write_legacy cw code msg ww = Some (true, ww') ->
     socks wr !! sock cr = Some s -> rx s = pre ++ rest ->
     rx_paced (timeout (settings cr)) pre = true ->
     sock_sent ww' (sock cw) = sock_sent ww (sock cw) ++ rx_stream pre ->
     exists wr', msg_read_legacy cr wr = Some (Some (code, msg), wr')) /\
  (forall c code msg w s pre rest,
     socks w !! sock c = Some s -> tx s = pre ++ rest ->
     tx_paced (timeout (settings c)) pre = true ->
     Z.of_nat (length msg) <= 65535 ->
     3 + Z.of_nat (length msg) <= tx_capacity pre ->
     exists w', msg_write_legacy c code msg w = Some (true, w')) /\
  (forall c code msg w,
     65536 <= Z.of_nat (length msg) ->
     msg_write_legacy_err c code msg w = Some (message_size, w) /\
     msg_write_legacy c code msg w = Some (false, w)).
Proof.
  split_and!.
  - intros cw cr code msg ww ww' wr s pre rest Hcode Hwrite Hs Hrx Hpaced Hwire.
    destruct (msg_write_legacy_err_run cw code msg ww) as (e & w1 & Hrun & Hok).
    unfold msg_write_legacy in Hwrite.
    rewrite (bind_run _ _ _ _ _ Hrun) in Hwrite.
    injection Hwrite as He <-. apply bool_decide_eq_true in He.
    destruct (Hok He) as [Hfit Hsent].
    rewrite Hsent in Hwire. apply app_inv_head in Hwire.
    apply (msg_read_legacy_paced cr code msg wr s pre rest []); try done.
    by rewrite app_nil_r.
  - apply msg_write_legacy_paced.
  - apply msg_write_legacy_too_long.
Qed.

(** * WebSocket frames: octets, masks and lengths *)

(** A property of the integers below 256 holds as soon as it holds of every
    octet. *)
Lemma octet_ind (P : Z -> Prop) :
  (forall b : byte, P (Z_of_byte b)) -> forall z, 0 <= z < 256 -> P z.
Proof.
  intros Hall z Hz. rewrite <- (Z_of_byte_of_Z_small z Hz). apply Hall.
Qed.

Lemma lxor_octets a k :
  0 <= a < 256 -> 0 <= k < 256 -> 0 <= Z.lxor a k < 256.
Proof.
  intros Ha Hk. split; [apply Z.lxor_nonneg; lia |].
  destruct (Z.eq_dec (Z.lxor a k) 0) as [-> | Hnz]; [lia |].
  assert (Hpos : 0 < Z.lxor a k)
    by (pose proof (proj2 (Z.lxor_nonneg a k) ltac:(lia)); lia).
  change 256 with (2 ^ 8). apply Z.log2_lt_pow2; [done |].
  pose proof (Z.log2_lxor a k ltac:(lia) ltac:(lia)) as Hlog.
  assert (Hla : Z.log2 a < 8).
  { destruct (Z.eq_dec a 0) as [-> | ?]; [done |].
    apply Z.log2_lt_pow2; lia. }
  assert (Hlk : Z.log2 k < 8).
  { destruct (Z.eq_dec k 0) as [-> | ?]; [done |].
    apply Z.log2_lt_pow2; lia. }
  lia.
Qed.

Lemma byte_xor_involutive a k : byte_xor (byte_xor a k) k = a.
Proof.
  unfold byte_xor.
  pose proof (Z_of_byte_range a) as Ha. pose proof (Z_of_byte_range k) as Hk.
  rewrite Z_of_byte_of_Z_small by (by apply lxor_octets).
  rewrite Z.lxor_assoc, Z.lxor_nilpotent, Z.lxor_0_r.
  apply byte_of_Z_of_byte.
Qed.

Lemma ws_mask_from_involutive key bs : forall i,
  ws_mask_from key i (ws_mask_from key i bs) = bs.
Proof.
  induction bs as [|b bs IH]; intros i; simpl; [done |].
  by rewrite byte_xor_involutive, IH.
Qed.

Lemma ws_mask_involutive key bs : ws_mask key (ws_mask key bs) = bs.
Proof. apply ws_mask_from_involutive. Qed.

Lemma be_bytes_length n : forall v, length (be_bytes n v) = n.
Proof.
  induction n as [|n IH]; intros v; simpl; [done |].
  rewrite length_app, IH. simpl. lia.
Qed.

Lemma be_value_snoc bs b : be_value (bs ++ [b]) = be_value bs * 256 + Z_of_byte b.
Proof. unfold be_value. by rewrite fold_left_app. Qed.

Lemma be_value_bytes n : forall v, be_value (be_bytes n v) = v mod 256 ^ Z.of_nat n.
Proof.
  induction n as [|n IH]; intros v.
  - simpl. by rewrite Z.mod_1_r.
  - cbn [be_bytes]. rewrite be_value_snoc, IH, Z_of_byte_of_Z.
    rewrite Nat2Z.inj_succ, Z.pow_succ_r by lia.
    rewrite (Z.rem_mul_r v 256 (256 ^ Z.of_nat n)) by lia.
    rewrite Z.mod_mod by lia. lia.
Qed.

Lemma be_value_bytes_small n v :
  0 <= v < 256 ^ Z.of_nat n -> be_value (be_bytes n v) = v.
Proof. intros Hv. rewrite be_value_bytes. by apply Z.mod_small. Qed.

(** The first byte of a server frame, taken apart with the header's masks. *)
Lemma ws_first_byte_parts (fin : bool) opcode :
  0 <= opcode < 16 ->
  let b0 := Z_of_byte (byte_of_Z (Z.lor (if fin then ws_fin_flag else 0) opcode)) in
  negb (Z.land b0 ws_fin_flag =? 0) = fin /\
  Z.land b0 ws_reserved_mask = 0 /\
  Z.land b0 ws_opcode_mask = opcode.
Proof.
  intros Hop.
  assert (Hcases : opcode = 0 \/ opcode = 1 \/ opcode = 2 \/ opcode = 3 \/
          opcode = 4 \/ opcode = 5 \/ opcode = 6 \/ opcode = 7 \/
          opcode = 8 \/ opcode = 9 \/ opcode = 10 \/ opcode = 11 \/
          opcode = 12 \/ opcode = 13 \/ opcode = 14 \/ opcode = 15) by lia.
  destruct fin; repeat (destruct Hcases as [-> | Hcases]); try subst opcode;
    vm_compute; done.
Qed.

(** The second byte of an unmasked frame, taken apart. *)
Lemma ws_second_byte_parts len7 :
  0 <= len7 < 128 ->
  let b1 := Z_of_byte (byte_of_Z (Z.lor 0 len7)) in
  Z.land b1 ws_mask_flag = 0 /\ Z.land b1 ws_len_mask = len7.
Proof.
  intros Hlen. cbn zeta. rewrite Z.lor_0_l, Z_of_byte_of_Z_small by lia.
  revert len7 Hlen.
  assert (Hall : forall z, 0 <= z < 256 -> z < 128 ->
            Z.land z ws_mask_flag = 0 /\ Z.land z ws_len_mask = z).
  { apply (octet_ind (fun z => z < 128 ->
             Z.land z ws_mask_flag = 0 /\ Z.land z ws_len_mask = z)).
    intros b. destruct b; vm_compute; (done || intros; discriminate). }
  intros len7 Hlen. apply Hall; lia.
Qed.

(** * The two header octets of a WebSocket frame *)

(** X4: the masks for the first octet of a frame split it into three fields
    that share no bit and leave none out: FIN, the reserved bits and the
    opcode.  The masks for the second octet split it likewise into the MASK
    flag and the seven-bit length.  An octet is therefore the OR of its
    fields. *)
Theorem ws_octet_masks_partition :
  (Z.land ws_fin_flag ws_reserved_mask = 0 /\
   Z.land ws_fin_flag ws_opcode_mask = 0 /\
   Z.land ws_reserved_mask ws_opcode_mask = 0 /\
   Z.lor ws_fin_flag (Z.lor ws_reserved_mask ws_opcode_mask) = 0xff) /\
  (Z.land ws_mask_flag ws_len_mask = 0 /\
   Z.lor ws_mask_flag ws_len_mask = 0xff) /\
  forall b : byte,
    let octet := Z_of_byte b in
    Z.lor (Z.land octet ws_fin_flag)
      (Z.lor (Z.land octet ws_reserved_mask) (Z.land octet ws_opcode_mask))
    = octet /\
    Z.lor (Z.land octet ws_mask_flag) (Z.land octet ws_len_mask) = octet.
Proof.
  split; [repeat split; reflexivity |].
  split; [split; reflexivity |].
  intros b. destruct b; vm_compute; split; reflexivity.
Qed.

(** X5: a first octet made of an opcode, with or without the FIN flag, is one
    octet from which the masks give back the FIN flag and the opcode, with
    no reserved bit set; the six opcodes the header names are distinct and
    fit the opcode field.  A second octet made of a seven-bit length, with
    or without the MASK flag, gives back the flag and the length. *)
Theorem ws_octets_roundtrip :
  (NoDup ws_opcode_all /\
   Forall (fun opcode => Z.land opcode ws_opcode_mask = opcode) ws_opcode_all) /\
  (forall (fin : bool) opcode,
     Z.land opcode ws_opcode_mask = opcode ->
     let octet := Z.lor (if fin then ws_fin_flag else 0) opcode in
     fits 8 octet /\
     flag_set octet ws_fin_flag = fin /\
     Z.land octet ws_reserved_mask = 0 /\
     Z.land octet ws_opcode_mask = opcode) /\
  (forall (masked : bool) len,
     Z.land len ws_len_mask = len ->
     let octet := Z.lor (if masked then ws_mask_flag else 0) len in
     fits 8 octet /\
     flag_set octet ws_mask_flag = masked /\
     Z.land octet ws_len_mask = len).
Proof.
  split; [split |].
  - apply (bool_decide_unpack _). vm_compute. exact I.
  - repeat constructor.
  - split.
    + intros fin opcode Hop.
      assert (Hrange : 0 <= opcode < 256).
      { rewrite <- Hop. change ws_opcode_mask with (Z.ones 4).
        rewrite Z.land_ones by lia. pose proof (Z.mod_pos_bound opcode (2 ^ 4)). lia. }
      revert Hop. pattern opcode. revert opcode Hrange. apply octet_ind.
      intros b. unfold fits.
      destruct fin, b; vm_compute; (discriminate || intuition congruence).
    + intros masked len Hlen.
      assert (Hrange : 0 <= len < 256).
      { rewrite <- Hlen. change ws_len_mask with (Z.ones 7).
        rewrite Z.land_ones by lia. pose proof (Z.mod_pos_bound len (2 ^ 7)). lia. }
      revert Hlen. pattern len. revert len Hrange. apply octet_ind.
      intros b. unfold fits.
      destruct masked, b; vm_compute; (discriminate || intuition congruence).
Qed.

(** * Paced sockets *)

Lemma set_sock_rng fd s w : rng (set_sock fd s w) = rng w.
Proof. reflexivity. Qed.

Lemma set_sock_drawn fd s w : drawn (set_sock fd s w) = drawn w.
Proof. reflexivity. Qed.

Lemma paced_sock_sent st fd w inb cap out :
  paced_sock st fd w inb cap out -> sock_sent w fd = out.
Proof. by intros (_ & _ & Hout). Qed.

(** Reading from a fed socket the bytes it is fed. *)
Lemma netx_recvn_fed_sock st fd w b1 b2 :
  fed_sock st fd w (b1 ++ b2) ->
  exists w',
    netx_recvn st fd (Z.of_nat (length b1)) w = Some ((none, b1), w') /\
    fed_sock st fd w' b2 /\
    sock_tx w' fd = sock_tx w fd /\ sock_sent w' fd = sock_sent w fd /\
    rng w' = rng w /\ drawn w' = drawn w.
Proof.
  intros (pre & rest & Hrx & Hp & Hstr).
  destruct (socks w !! fd) as [s|] eqn:Hs.
  - rewrite (sock_rx_open _ _ _ Hs) in Hrx.
    rewrite (sock_tx_open _ _ _ Hs), (sock_sent_open _ _ _ Hs).
    destruct (netx_recvn_paced st fd (length b1) w s pre rest)
      as (s' & pre' & Hrun & Htx' & Hsent' & Hrx' & Hp' & Hstr'); try done.
    { rewrite Hstr, length_app. lia. }
    exists (set_sock fd s' w).
    rewrite Hstr, take_app_length in Hrun. rewrite Hstr, drop_app_length in Hstr'.
    rewrite sock_tx_set, sock_sent_set. split_and!; try done.
    exists pre', rest. by rewrite sock_rx_set.
  - assert (Hnil : sock_rx w fd = []) by (unfold sock_rx; by rewrite Hs).
    rewrite Hnil in Hrx. symmetry in Hrx. apply app_eq_nil in Hrx as [-> ->].
    simpl in Hstr. symmetry in Hstr. apply app_eq_nil in Hstr as [-> ->].
    exists w. unfold netx_recvn. rewrite Hnil, netx_recvn_loop_closed by done.
    split_and!; try done. exists [], []. by rewrite Hnil.
Qed.

(** Sending on a roomy socket what it has room for. *)
Lemma netx_sendn_roomy_sock st fd w cap data :
  roomy_sock st fd w cap -> Z.of_nat (length data) <= cap ->
  exists w',
    netx_sendn st fd data w = Some ((none, Z.of_nat (length data)), w') /\
    roomy_sock st fd w' (cap - Z.of_nat (length data)) /\
    sock_rx w' fd = sock_rx w fd /\ sock_sent w' fd = sock_sent w fd ++ data /\
    rng w' = rng w /\ drawn w' = drawn w.
Proof.
  intros (pre & rest & Htx & Hp & Hcap) Hroom.
  destruct (socks w !! fd) as [s|] eqn:Hs.
  - rewrite (sock_tx_open _ _ _ Hs) in Htx.
    rewrite (sock_rx_open _ _ _ Hs), (sock_sent_open _ _ _ Hs).
    destruct (netx_sendn_paced st fd data w s pre rest)
      as (s' & pre' & Hrun & Hrx' & Hsent' & Htx' & Hp' & Hcap'); try done.
    { lia. }
    exists (set_sock fd s' w). rewrite sock_rx_set, sock_sent_set.
    split_and!; try done.
    exists pre', rest. rewrite sock_tx_set. split_and!; (done || lia).
  - assert (Hnil : sock_tx w fd = []) by (unfold sock_tx; by rewrite Hs).
    assert (Hsent : sock_sent w fd = []) by (unfold sock_sent; by rewrite Hs).
    rewrite Hnil in Htx. symmetry in Htx. apply app_eq_nil in Htx as [-> ->].
    simpl in Hcap. subst cap.
    assert (data = []) as -> by (destruct data; [done | simpl in Hroom; lia]).
    exists w. unfold netx_sendn. rewrite Hnil, netx_sendn_loop_closed by done.
    split_and!; try done.
    + exists [], []. by rewrite Hnil.
    + by rewrite Hsent.
Qed.

(** Reading from a paced socket the bytes it is fed. *)
Lemma netx_recvn_paced_sock st fd w b1 b2 cap out :
  paced_sock st fd w (b1 ++ b2) cap out ->
  exists w',
    netx_recvn st fd (Z.of_nat (length b1)) w = Some ((none, b1), w') /\
    paced_sock st fd w' b2 cap out /\
    rng w' = rng w /\ drawn w' = drawn w.
Proof.
  intros (Hfed & (tpre & trest & Htx & Htp & Hcap) & Hout).
  destruct (netx_recvn_fed_sock st fd w b1 b2 Hfed)
    as (w' & Hrun & Hfed' & Htx' & Hsent' & Hrng & Hdrawn).
  exists w'. split; [done |]. split; [| done].
  split; [done |]. split; [| congruence].
  exists tpre, trest. by rewrite Htx'.
Qed.

(** Sending on a paced socket what it has room for. *)
Lemma netx_sendn_paced_sock st fd w inb cap out data :
  paced_sock st fd w inb cap out -> Z.of_nat (length data) <= cap ->
  exists w',
    netx_sendn st fd data w = Some ((none, Z.of_nat (length data)), w') /\
    paced_sock st fd w' inb (cap - Z.of_nat (length data)) (out ++ data) /\
    rng w' = rng w /\ drawn w' = drawn w.
Proof.
  intros ((pre & rest & Hrx & Hp & Hstr) & Hroomy & Hout) Hroom.
  destruct (netx_sendn_roomy_sock st fd w cap data Hroomy Hroom)
    as (w' & Hrun & Hroomy' & Hrx' & Hsent' & Hrng & Hdrawn).
  exists w'. split; [done |]. split; [| done].
  split; [| split; [done | congruence]].
  exists pre, rest. by rewrite Hrx'.
Qed.

(** Drawing random bytes leaves the sockets alone. *)
Lemma random_bytes_paced_sock st fd w inb cap out n :
  paced_sock st fd w inb cap out ->
  exists w',
    random_bytes n w = Some (map (rng w) (seq (drawn w) n), w') /\
    paced_sock st fd w' inb cap out /\
    rng w' = rng w /\ drawn w' = (drawn w + n)%nat.
Proof.
  intros Hview. eexists. split; [reflexivity |]. split; [| done].
  exact Hview.
Qed.

(** * Receiving and sending one frame *)

Lemma ws_frame_fits_spec total f :
  ws_frame_fits total f = true ->
  0 <= ws_opcode f < 16 /\
  Z.of_nat (length (ws_payload f)) <= total /\
  Z.of_nat (length (ws_payload f)) < 2 ^ 64.
Proof. unfold ws_frame_fits. rewrite !andb_true_iff. lia. Qed.

(** A socket fed a server frame that fits gives that frame. *)
Lemma ws_recv_any_frame_fed st fd total w f more :
  fed_sock st fd w (ws_server_frame f ++ more) ->
  ws_frame_fits total f = true ->
  exists w',
    ws_recv_any_frame st fd total w = Some ((none, f), w') /\
    fed_sock st fd w' more /\
    sock_tx w' fd = sock_tx w fd /\ sock_sent w' fd = sock_sent w fd /\
    rng w' = rng w /\ drawn w' = drawn w.
Proof.
  intros Hview Hfits. apply ws_frame_fits_spec in Hfits as (Hop & Htotal & Hlen).
  destruct f as [fin opcode payload]; cbn [ws_fin ws_opcode ws_payload] in *.
  unfold ws_recv_any_frame, ws_server_frame in *.
  cbn [ws_fin ws_opcode ws_payload] in *.
  set (len := Z.of_nat (length payload)) in *.
  set (B0 := byte_of_Z (Z.lor (if fin then ws_fin_flag else 0) opcode)) in *.
  destruct (ws_first_byte_parts fin opcode Hop) as (Hfin & Hrsv & Hopc).
  fold B0 in Hfin, Hrsv, Hopc.
  assert (Hrest : (total <? len) = false) by (apply Z.ltb_ge; lia).
  unfold ws_length_bytes in Hview.
  destruct (Z.ltb_spec len 126) as [Hshort | Hnot_short].
  - (* the length is in the second byte *)
    destruct (ws_second_byte_parts len ltac:(lia)) as (Hmask & Hlen7).
    destruct (netx_recvn_fed_sock st fd w
                [B0; byte_of_Z (Z.lor 0 len)] (payload ++ more))
      as (w1 & Hrun1 & Hview1 & Htx1 & Hsent1 & Hrng1 & Hdrawn1).
    { exact Hview. }
    change (Z.of_nat (length [B0; byte_of_Z (Z.lor 0 len)])) with 2 in Hrun1.
    rewrite (bind_run _ _ _ _ _ Hrun1). cbn [nth].
    rewrite Hrsv, Hmask, Hlen7, Hfin, Hopc. cbn [Z.eqb negb].
    destruct (Z.eqb_spec len 126); [lia |].
    destruct (Z.eqb_spec len 127); [lia |].
    unfold bind at 1. unfold ret at 1. rewrite Hrest.
    destruct (netx_recvn_fed_sock st fd w1 payload more Hview1)
      as (w2 & Hrun2 & Hview2 & Htx2 & Hsent2 & Hrng2 & Hdrawn2).
    fold len in Hrun2. rewrite (bind_run _ _ _ _ _ Hrun2).
    exists w2. split_and!; (done || congruence).
  - destruct (Z.leb_spec len 65535) as [Hmid | Hlong].
    + (* 126, then two bytes of length *)
      destruct (ws_second_byte_parts 126 ltac:(lia)) as (Hmask & Hlen7).
      destruct (netx_recvn_fed_sock st fd w
                  [B0; byte_of_Z (Z.lor 0 126)]
                  (be_bytes 2 len ++ payload ++ more))
        as (w1 & Hrun1 & Hview1 & Htx1 & Hsent1 & Hrng1 & Hdrawn1).
      { cbn [app] in Hview |- *. by rewrite <- app_assoc in Hview. }
      change (Z.of_nat (length [B0; byte_of_Z (Z.lor 0 126)])) with 2 in Hrun1.
      rewrite (bind_run _ _ _ _ _ Hrun1). cbn [nth].
      rewrite Hrsv, Hmask, Hlen7, Hfin, Hopc. cbn [Z.eqb negb Pos.eqb].
      destruct (netx_recvn_fed_sock st fd w1 (be_bytes 2 len)
                  (payload ++ more) Hview1)
        as (w2 & Hrun2 & Hview2 & Htx2 & Hsent2 & Hrng2 & Hdrawn2).
      rewrite be_bytes_length in Hrun2. change (Z.of_nat 2) with 2 in Hrun2.
      unfold bind at 1. rewrite (bind_run _ _ _ _ _ Hrun2). unfold ret at 1.
      rewrite be_value_bytes_small by (change (256 ^ Z.of_nat 2) with 65536; lia).
      rewrite Hrest.
      destruct (netx_recvn_fed_sock st fd w2 payload more Hview2)
        as (w3 & Hrun3 & Hview3 & Htx3 & Hsent3 & Hrng3 & Hdrawn3).
      fold len in Hrun3. rewrite (bind_run _ _ _ _ _ Hrun3).
      exists w3. split_and!; (done || congruence).
    + (* 127, then eight bytes of length *)
      destruct (ws_second_byte_parts 127 ltac:(lia)) as (Hmask & Hlen7).
      destruct (netx_recvn_fed_sock st fd w
                  [B0; byte_of_Z (Z.lor 0 127)]
                  (be_bytes 8 len ++ payload ++ more))
        as (w1 & Hrun1 & Hview1 & Htx1 & Hsent1 & Hrng1 & Hdrawn1).
      { cbn [app] in Hview |- *. by rewrite <- app_assoc in Hview. }
      change (Z.of_nat (length [B0; byte_of_Z (Z.lor 0 127)])) with 2 in Hrun1.
      rewrite (bind_run _ _ _ _ _ Hrun1). cbn [nth].
      rewrite Hrsv, Hmask, Hlen7, Hfin, Hopc. cbn [Z.eqb negb Pos.eqb].
      destruct (netx_recvn_fed_sock st fd w1 (be_bytes 8 len)
                  (payload ++ more) Hview1)
        as (w2 & Hrun2 & Hview2 & Htx2 & Hsent2 & Hrng2 & Hdrawn2).
      rewrite be_bytes_length in Hrun2. change (Z.of_nat 8) with 8 in Hrun2.
      unfold bind at 1. rewrite (bind_run _ _ _ _ _ Hrun2). unfold ret at 1.
      rewrite be_value_bytes_small
        by (change (256 ^ Z.of_nat 8) with (2 ^ 64); lia).
      rewrite Hrest.
      destruct (netx_recvn_fed_sock st fd w2 payload more Hview2)
        as (w3 & Hrun3 & Hview3 & Htx3 & Hsent3 & Hrng3 & Hdrawn3).
      fold len in Hrun3. rewrite (bind_run _ _ _ _ _ Hrun3).
      exists w3. split_and!; (done || congruence).
Qed.

(** A paced socket fed a server frame that fits gives that frame. *)
Lemma ws_recv_any_frame_paced st fd total w f more cap out :
  paced_sock st fd w (ws_server_frame f ++ more) cap out ->
  ws_frame_fits total f = true ->
  exists w',
    ws_recv_any_frame st fd total w = Some ((none, f), w') /\
    paced_sock st fd w' more cap out /\
    rng w' = rng w /\ drawn w' = drawn w.
Proof.
  intros (Hfed & (tpre & trest & Htx & Htp & Hcap) & Hout) Hfits.
  destruct (ws_recv_any_frame_fed st fd total w f more Hfed Hfits)
    as (w' & Hrun & Hfed' & Htx' & Hsent' & Hrng & Hdrawn).
  exists w'. split; [done |]. split; [| done].
  split; [done |]. split; [| congruence].
  exists tpre, trest. by rewrite Htx'.
Qed.


(** A paced socket with room for it sends a whole client frame, masked with
    the next four random bytes. *)
Lemma ws_send_frame_paced st fd w inb cap out first payload :
  paced_sock st fd w inb cap out ->
  let frame := ws_client_frame first (ws_key_at w (drawn w)) payload in
  Z.of_nat (length frame) <= cap ->
  exists w',
    ws_send_frame st fd first payload w = Some (none, w') /\
    paced_sock st fd w' inb (cap - Z.of_nat (length frame)) (out ++ frame) /\
    rng w' = rng w /\ drawn w' = (drawn w + 4)%nat.
Proof.
  intros Hview frame Hroom. unfold ws_send_frame.
  destruct (random_bytes_paced_sock st fd w inb cap out 4 Hview)
    as (w0 & Hrun0 & Hview0 & Hrng0 & Hdrawn0).
  rewrite (bind_run _ _ _ _ _ Hrun0). fold (ws_key_at w (drawn w)).
  set (key := ws_key_at w (drawn w)) in *.
  set (hdr := ws_client_header first key (Z.of_nat (length payload))).
  assert (Hlen : length frame = (length hdr + length (ws_mask key payload))%nat)
    by (unfold frame, ws_client_frame; by rewrite length_app).
  destruct (netx_sendn_paced_sock st fd w0 inb cap out hdr Hview0)
    as (w1 & Hrun1 & Hview1 & Hrng1 & Hdrawn1); [lia |].
  rewrite (bind_run _ _ _ _ _ Hrun1).
  destruct (netx_sendn_paced_sock st fd w1 inb _ _ (ws_mask key payload) Hview1)
    as (w2 & Hrun2 & Hview2 & Hrng2 & Hdrawn2); [lia |].
  rewrite (bind_run _ _ _ _ _ Hrun2).
  exists w2. split; [done |]. split; [| split; congruence].
  unfold frame, ws_client_frame. fold hdr. rewrite length_app, app_assoc.
  by replace (cap - Z.of_nat (length hdr + length (ws_mask key payload)))
    with (cap - Z.of_nat (length hdr) - Z.of_nat (length (ws_mask key payload)))
    by lia.
Qed.

(** * The loop of [ws_recv_frame] *)

Lemma ws_replies_rng w w' pos fs :
  rng w' = rng w -> ws_replies w' pos fs = ws_replies w pos fs.
Proof.
  intros Hrng. revert pos. induction fs as [|f fs IH]; intros pos; simpl; [done |].
  unfold ws_key_at. by rewrite Hrng, !IH.
Qed.

Lemma ws_is_control_spec f :
  ws_is_control f = true ->
  (ws_opcode f = ws_opcode_ping \/ ws_opcode f = ws_opcode_pong).
Proof. unfold ws_is_control. rewrite orb_true_iff, !Z.eqb_eq. tauto. Qed.

(** The loop answers a run of control frames and is then where it would be
    had they never arrived, but for the random bytes drawn and the answers
    on the wire. *)
Lemma ws_recv_frame_loop_controls st fd total ctrl :
  forall fuel w more cap out,
  paced_sock st fd w (concat (map ws_server_frame ctrl) ++ more) cap out ->
  forallb (ws_frame_fits total) ctrl = true ->
  forallb ws_is_control ctrl = true ->
  Z.of_nat (length (ws_replies w (drawn w) ctrl)) <= cap ->
  exists w',
    ws_recv_frame_loop (length ctrl + fuel) st fd total w
    = ws_recv_frame_loop fuel st fd total w' /\
    paced_sock st fd w' more
      (cap - Z.of_nat (length (ws_replies w (drawn w) ctrl)))
      (out ++ ws_replies w (drawn w) ctrl) /\
    rng w' = rng w /\ drawn w' = (drawn w + ws_replies_drawn ctrl)%nat.
Proof.
  induction ctrl as [|f ctrl IH]; intros fuel w more cap out Hview Hfits Hctl Hroom.
  { exists w. simpl in *. rewrite app_nil_r, Z.sub_0_r.
    split_and!; (done || lia). }
  cbn [map concat forallb] in *. rewrite <- app_assoc in Hview.
  apply andb_true_iff in Hfits as [Hfit Hfits].
  apply andb_true_iff in Hctl as [Hc Hctl].
  destruct (ws_recv_any_frame_paced st fd total w f _ cap out Hview Hfit)
    as (w1 & Hrun1 & Hview1 & Hrng1 & Hdrawn1).
  cbn [length Nat.add ws_recv_frame_loop].
  rewrite (bind_run _ _ _ _ _ Hrun1).
  cbn [ws_replies ws_replies_drawn] in *.
  destruct (ws_is_control_spec f Hc) as [Hping | Hpong]; rewrite ?Hping, ?Hpong in *.
  - (* a PING: answer it and read on *)
    change (ws_opcode_ping =? ws_opcode_close) with false.
    change (ws_opcode_ping =? ws_opcode_pong) with false.
    change (ws_opcode_ping =? ws_opcode_ping) with true in *.
    cbn iota in *.
    rewrite length_app in Hroom.
    destruct (ws_send_frame_paced st fd w1 _ cap out
                (Z.lor ws_opcode_pong ws_fin_flag) (ws_payload f) Hview1)
      as (w2 & Hrun2 & Hview2 & Hrng2 & Hdrawn2).
    { unfold ws_key_at. rewrite Hrng1, Hdrawn1. fold (ws_key_at w (drawn w)). lia. }
    rewrite (bind_run _ _ _ _ _ Hrun2).
    unfold ws_key_at in Hview2. rewrite Hrng1, Hdrawn1 in Hview2.
    fold (ws_key_at w (drawn w)) in Hview2.
    destruct (IH fuel w2 more _ _ Hview2 Hfits Hctl) as (w3 & Hrun3 & Hview3 & Hrng3 & Hdrawn3).
    { rewrite (ws_replies_rng w w2) by congruence.
      rewrite Hdrawn2, Hdrawn1. lia. }
    exists w3. rewrite (ws_replies_rng w w2) in * by congruence.
    rewrite Hdrawn2, Hdrawn1 in *.
    split; [done |]. split; [| split; [congruence |]].
    + rewrite length_app, app_assoc.
      by replace (cap - Z.of_nat (length (ws_client_frame
                    (Z.lor ws_opcode_pong ws_fin_flag) (ws_key_at w (drawn w))
                    (ws_payload f)) + length (ws_replies w (drawn w + 4) ctrl)))
        with (cap - Z.of_nat (length (ws_client_frame
                    (Z.lor ws_opcode_pong ws_fin_flag) (ws_key_at w (drawn w))
                    (ws_payload f)))
              - Z.of_nat (length (ws_replies w (drawn w + 4) ctrl))) by lia.
    + rewrite Hdrawn3. lia.
  - (* a PONG: drop it and read on *)
    change (ws_opcode_pong =? ws_opcode_close) with false.
    change (ws_opcode_pong =? ws_opcode_pong) with true.
    change (ws_opcode_pong =? ws_opcode_ping) with false in *.
    cbn iota in *.
    destruct (IH fuel w1 more _ _ Hview1 Hfits Hctl) as (w3 & Hrun3 & Hview3 & Hrng3 & Hdrawn3).
    { rewrite (ws_replies_rng w w1) by congruence. rewrite Hdrawn1. lia. }
    exists w3. rewrite (ws_replies_rng w w1) in * by congruence.
    rewrite Hdrawn1 in *.
    split; [done |]. split; [done |]. split; [congruence |].
    rewrite Hdrawn3. lia.
Qed.

(** * Receiving without room to answer *)

(** Whatever the send side does, [ws_send_frame] returns; the bytes fed to
    the socket stay where they are, and when it reports no error the whole
    frame is on the wire. *)
Lemma ws_send_frame_any st fd w inb first payload :
  fed_sock st fd w inb ->
  exists e w',
    ws_send_frame st fd first payload w = Some (e, w') /\
    fed_sock st fd w' inb /\
    rng w' = rng w /\ drawn w' = (drawn w + 4)%nat /\
    (e = none ->
     sock_sent w' fd
     = sock_sent w fd
       ++ ws_client_frame first (ws_key_at w (drawn w)) payload).
Proof.
  intros (pre & rest & Hrx & Hp & Hstr). unfold ws_send_frame.
  unfold bind at 1, random_bytes at 1. fold (ws_key_at w (drawn w)).
  set (key := ws_key_at w (drawn w)).
  set (w0 := {| socks := socks w; rng := rng w; drawn := (drawn w + 4)%nat |}).
  set (hdr := ws_client_header first key (Z.of_nat (length payload))).
  destruct (netx_sendn_run st fd hdr w0)
    as (e1 & n1 & w1 & Hrun1 & Hsent1 & Hrx1 & Hrng1 & Hdrawn1 & Hres1).
  rewrite (bind_run _ _ _ _ _ Hrun1).
  change (rng w0) with (rng w) in Hrng1.
  change (drawn w0) with (drawn w + 4)%nat in Hdrawn1.
  change (sock_sent w0 fd) with (sock_sent w fd) in Hsent1.
  change (sock_rx w0 fd) with (sock_rx w fd) in Hrx1.
  assert (Hfed1 : fed_sock st fd w1 inb).
  { exists pre, rest. by rewrite Hrx1. }
  destruct Hres1 as [[-> ->] | [Hne _]].
  - rewrite Nat2Z.id, firstn_all in Hsent1.
    destruct (netx_sendn_run st fd (ws_mask key payload) w1)
      as (e2 & n2 & w2 & Hrun2 & Hsent2 & Hrx2 & Hrng2 & Hdrawn2 & Hres2).
    rewrite (bind_run _ _ _ _ _ Hrun2).
    exists e2, w2. split; [done |].
    split; [exists pre, rest; by rewrite Hrx2, Hrx1 |].
    split; [congruence |]. split; [congruence |].
    intros ->. destruct Hres2 as [[_ ->] | [Hne _]]; [| done].
    rewrite Nat2Z.id, firstn_all in Hsent2.
    rewrite Hsent2, Hsent1. unfold ws_client_frame. fold hdr.
    by rewrite <- app_assoc.
  - exists e1, w1.
    split; [by destruct e1 |]. split; [done |].
    split; [congruence |]. split; [congruence | done].
Qed.

(** Fed a run of control frames, the loop either answers them all and is
    then where it would be had they never arrived, or stops with the error
    of a PONG it could not send. *)
Lemma ws_recv_frame_loop_controls_any st fd total ctrl :
  forall fuel w more,
  fed_sock st fd w (concat (map ws_server_frame ctrl) ++ more) ->
  forallb (ws_frame_fits total) ctrl = true ->
  forallb ws_is_control ctrl = true ->
  (exists w',
     ws_recv_frame_loop (length ctrl + fuel) st fd total w
     = ws_recv_frame_loop fuel st fd total w' /\
     fed_sock st fd w' more /\
     sock_sent w' fd = sock_sent w fd ++ ws_replies w (drawn w) ctrl /\
     rng w' = rng w /\ drawn w' = (drawn w + ws_replies_drawn ctrl)%nat) \/
  (exists e f w',
     ws_recv_frame_loop (length ctrl + fuel) st fd total w = Some ((e, f), w') /\
     e <> none).
Proof.
  induction ctrl as [|f ctrl IH]; intros fuel w more Hview Hfits Hctl.
  { left. exists w. simpl in *. rewrite app_nil_r. split_and!; (done || lia). }
  cbn [map concat forallb] in *. rewrite <- app_assoc in Hview.
  apply andb_true_iff in Hfits as [Hfit Hfits].
  apply andb_true_iff in Hctl as [Hc Hctl].
  destruct (ws_recv_any_frame_fed st fd total w f _ Hview Hfit)
    as (w1 & Hrun1 & Hview1 & _ & Hsent1 & Hrng1 & Hdrawn1).
  cbn [length Nat.add ws_recv_frame_loop].
  rewrite (bind_run _ _ _ _ _ Hrun1).
  cbn [ws_replies ws_replies_drawn].
  destruct (ws_is_control_spec f Hc) as [Hping | Hpong]; rewrite ?Hping, ?Hpong.
  - (* a PING: answer it and, if that went well, read on *)
    change (ws_opcode_ping =? ws_opcode_close) with false.
    change (ws_opcode_ping =? ws_opcode_pong) with false.
    change (ws_opcode_ping =? ws_opcode_ping) with true.
    cbn iota.
    destruct (ws_send_frame_any st fd w1 _
                (Z.lor ws_opcode_pong ws_fin_flag) (ws_payload f) Hview1)
      as (e2 & w2 & Hrun2 & Hview2 & Hrng2 & Hdrawn2 & Hsent2).
    rewrite (bind_run _ _ _ _ _ Hrun2).
    destruct (decide (e2 = none)) as [-> | Hne].
    + specialize (Hsent2 eq_refl).
      unfold ws_key_at in Hsent2. rewrite Hrng1, Hdrawn1 in Hsent2.
      fold (ws_key_at w (drawn w)) in Hsent2.
      destruct (IH fuel w2 more Hview2 Hfits Hctl)
        as [(w3 & Hrun3 & Hview3 & Hsent3 & Hrng3 & Hdrawn3)
           | (e & f' & w3 & Hrun3 & Hne)].
      * left. exists w3.
        rewrite (ws_replies_rng w w2) in Hsent3 by congruence.
        rewrite Hdrawn2, Hdrawn1 in Hsent3, Hdrawn3.
        split; [done |]. split; [done |].
        split; [by rewrite Hsent3, Hsent2, Hsent1, <- app_assoc |].
        split; [congruence |]. rewrite Hdrawn3. lia.
      * right. by exists e, f', w3.
    + right. exists e2, f, w2. split; [by destruct e2 | done].
  - (* a PONG: drop it and read on *)
    change (ws_opcode_pong =? ws_opcode_close) with false.
    change (ws_opcode_pong =? ws_opcode_pong) with true.
    change (ws_opcode_pong =? ws_opcode_ping) with false.
    cbn iota.
    destruct (IH fuel w1 more Hview1 Hfits Hctl)
      as [(w3 & Hrun3 & Hview3 & Hsent3 & Hrng3 & Hdrawn3)
         | (e & f' & w3 & Hrun3 & Hne)].
    + left. exists w3.
      rewrite (ws_replies_rng w w1) in Hsent3 by congruence.
      rewrite Hdrawn1 in Hsent3, Hdrawn3.
      split; [done |]. split; [done |].
      split; [by rewrite Hsent3, Hsent1 |].
      split; [congruence |]. rewrite Hdrawn3. lia.
    + right. by exists e, f', w3.
Qed.

Lemma rx_weight_app evs evs' :
  rx_weight (evs ++ evs') = (rx_weight evs + rx_weight evs')%nat.
Proof.
  induction evs as [|[bs|secs| |e|] evs IH]; simpl; rewrite ?IH; lia.
Qed.

Lemma rx_weight_stream evs : (length (rx_stream evs) <= rx_weight evs)%nat.
Proof.
  induction evs as [|[bs|secs| |e|] evs IH]; simpl; rewrite ?length_app; lia.
Qed.

Lemma ws_server_frames_length fs :
  (length fs <= length (concat (map ws_server_frame fs)))%nat.
Proof.
  induction fs as [|f fs IH]; simpl; [done |]. rewrite length_app. lia.
Qed.

Lemma fed_sock_weight st fd w inb :
  fed_sock st fd w inb -> (length inb <= rx_weight (sock_rx w fd))%nat.
Proof.
  intros (pre & rest & Hrx & _ & Hstr).
  rewrite Hrx, rx_weight_app, <- Hstr.
  pose proof (rx_weight_stream pre). lia.
Qed.

Lemma paced_sock_weight st fd w inb cap out :
  paced_sock st fd w inb cap out -> (length inb <= rx_weight (sock_rx w fd))%nat.
Proof.
  intros ((pre & rest & Hrx & _ & Hstr) & _).
  rewrite Hrx, rx_weight_app, <- Hstr.
  pose proof (rx_weight_stream pre). lia.
Qed.

(** C3: on every sequence of incoming frames made of PING and PONG frames
    followed by another frame, [ws_recv_frame] has put on the wire, by the
    time it returns, one PONG per PING, in order, each carrying the payload
    of its PING, and nothing for the PONG frames, whose payload is dropped;
    it then returns the frame that follows to the caller; when that frame
    is a CLOSE, it puts a CLOSE on the wire as well and returns [eof].
    Whatever the send side does, it returns, and when it reports no error
    the frame it returns is that frame and the PONG frames are on the wire.
    The frames it emits are masked, and unmasking gives the payload back. *)
Theorem ws_recv_frame_control_frames :
  (forall st fd total w ctrl last more cap out,
     paced_sock st fd w
       (concat (map ws_server_frame (ctrl ++ [last])) ++ more) cap out ->
     forallb (ws_frame_fits total) (ctrl ++ [last]) = true ->
     forallb ws_is_control ctrl = true -> ws_is_control last = false ->
     let is_close := ws_opcode last =? ws_opcode_close in
     let replies := ws_replies w (drawn w) ctrl in
     let closing :=
       if is_close
       then ws_client_frame (Z.lor ws_opcode_close ws_fin_flag)
              (ws_key_at w (drawn w + ws_replies_drawn ctrl)) []
       else [] in
     Z.of_nat (length (replies ++ closing)) <= cap ->
     exists w',
       ws_recv_frame st fd total w
       = Some ((if is_close then eof else none, last), w') /\
       sock_sent w' fd = out ++ replies ++ closing) /\
  (forall st fd total w ctrl last more,
     fed_sock st fd w
       (concat (map ws_server_frame (ctrl ++ [last])) ++ more) ->
     forallb (ws_frame_fits total) (ctrl ++ [last]) = true ->
     forallb ws_is_control ctrl = true -> ws_is_control last = false ->
     exists e f w',
       ws_recv_frame st fd total w = Some ((e, f), w') /\
       (e = none ->
        f = last /\
        sock_sent w' fd = sock_sent w fd ++ ws_replies w (drawn w) ctrl)) /\
  (forall first key payload,
     ws_client_frame first key payload
     = ws_client_header first key (Z.of_nat (length payload))
       ++ ws_mask key payload /\
     ws_mask key (ws_mask key payload) = payload).
Proof.
  split; [| split;
    [| intros; split; [reflexivity | apply ws_mask_involutive]]].
  - intros st fd total w ctrl last more cap out Hview Hfits Hctl Hlast
           is_close replies closing Hroom.
    rewrite forallb_app in Hfits. apply andb_true_iff in Hfits as [Hfits Hfit].
    cbn [forallb] in Hfit. rewrite andb_true_r in Hfit.
    rewrite map_app, concat_app in Hview. cbn [map concat] in Hview.
    rewrite app_nil_r, <- app_assoc in Hview.
    rewrite length_app in Hroom.
    (* the fuel covers the control frames and one more turn *)
    pose proof (paced_sock_weight _ _ _ _ _ _ Hview) as Hweight.
    pose proof (ws_server_frames_length ctrl) as Hframes.
    rewrite !length_app in Hweight.
    assert (Hbyte : (1 <= length (ws_server_frame last))%nat) by (simpl; lia).
    unfold ws_recv_frame.
    replace (S (rx_weight (sock_rx w fd)))
      with (length ctrl + S (rx_weight (sock_rx w fd) - length ctrl))%nat by lia.
    destruct (ws_recv_frame_loop_controls st fd total ctrl
                (S (rx_weight (sock_rx w fd) - length ctrl)) w
                (ws_server_frame last ++ more) cap out Hview Hfits Hctl)
      as (w1 & Hrun1 & Hview1 & Hrng1 & Hdrawn1); [fold replies; lia |].
    rewrite Hrun1. fold replies in Hview1.
    destruct (ws_recv_any_frame_paced st fd total w1 last more _ _ Hview1 Hfit)
      as (w2 & Hrun2 & Hview2 & Hrng2 & Hdrawn2).
    cbn [ws_recv_frame_loop]. rewrite (bind_run _ _ _ _ _ Hrun2).
    unfold ws_is_control in Hlast. apply orb_false_iff in Hlast as [Hnping Hnpong].
    rewrite Hnping, Hnpong. subst closing. fold is_close.
    destruct is_close.
    + (* a CLOSE: answer it and report the end of the stream *)
      destruct (ws_send_frame_paced st fd w2 more _ _
                  (Z.lor ws_opcode_close ws_fin_flag) [] Hview2)
        as (w3 & Hrun3 & Hview3 & _).
      { unfold ws_key_at. rewrite Hrng2, Hrng1, Hdrawn2, Hdrawn1.
        fold (ws_key_at w (drawn w + ws_replies_drawn ctrl)). lia. }
      rewrite (bind_run _ _ _ _ _ Hrun3).
      exists w3. split; [done |].
      rewrite (paced_sock_sent _ _ _ _ _ _ Hview3).
      unfold ws_key_at. rewrite Hrng2, Hrng1, Hdrawn2, Hdrawn1.
      by rewrite <- app_assoc.
    + (* any other frame goes to the caller *)
      exists w2. split; [done |].
      rewrite (paced_sock_sent _ _ _ _ _ _ Hview2). by rewrite app_nil_r.
  - intros st fd total w ctrl last more Hview Hfits Hctl Hlast.
    rewrite forallb_app in Hfits. apply andb_true_iff in Hfits as [Hfits Hfit].
    cbn [forallb] in Hfit. rewrite andb_true_r in Hfit.
    rewrite map_app, concat_app in Hview. cbn [map concat] in Hview.
    rewrite app_nil_r, <- app_assoc in Hview.
    pose proof (fed_sock_weight _ _ _ _ Hview) as Hweight.
    pose proof (ws_server_frames_length ctrl) as Hframes.
    rewrite !length_app in Hweight.
    assert (Hbyte : (1 <= length (ws_server_frame last))%nat) by (simpl; lia).
    unfold ws_recv_frame.
    replace (S (rx_weight (sock_rx w fd)))
      with (length ctrl + S (rx_weight (sock_rx w fd) - length ctrl))%nat by lia.
    destruct (ws_recv_frame_loop_controls_any st fd total ctrl
                (S (rx_weight (sock_rx w fd) - length ctrl)) w
                (ws_server_frame last ++ more) Hview Hfits Hctl)
      as [(w1 & Hrun1 & Hview1 & Hsent1 & Hrng1 & Hdrawn1)
         | (e & f & w1 & Hrun1 & Hne)].
    + rewrite Hrun1.
      destruct (ws_recv_any_frame_fed st fd total w1 last more Hview1 Hfit)
        as (w2 & Hrun2 & Hview2 & _ & Hsent2 & Hrng2 & Hdrawn2).
      cbn [ws_recv_frame_loop]. rewrite (bind_run _ _ _ _ _ Hrun2).
      unfold ws_is_control in Hlast.
      apply orb_false_iff in Hlast as [Hnping Hnpong].
      rewrite Hnping, Hnpong.
      destruct (ws_opcode last =? ws_opcode_close).
      * destruct (ws_send_frame_any st fd w2 more
                    (Z.lor ws_opcode_close ws_fin_flag) [] Hview2)
          as (e3 & w3 & Hrun3 & _).
        rewrite (bind_run _ _ _ _ _ Hrun3).
        exists eof, last, w3. split; [done | done].
      * exists none, last, w2. split; [done |]. intros _.
        split; [done | congruence].
    + exists e, f, w1. split; [done | done].
Qed.

(** * The expect helpers *)

Lemma sys_strtonum_value s minval maxval v :
  sys_strtonum s minval maxval = inl v <->
  decimal s = Some v /\ minval <= v <= maxval.
Proof.
  unfold sys_strtonum.
  destruct (Z.ltb_spec maxval minval).
  { split; [discriminate | intros [_ ?]; lia]. }
  destruct (decimal s) as [v' |]; [| split; [discriminate | intros [? _]; discriminate]].
  destruct (Z.ltb_spec v' minval).
  { split; [discriminate | intros [[= ->] ?]; lia]. }
  destruct (Z.ltb_spec maxval v').
  { split; [discriminate | intros [[= ->] ?]; lia]. }
  split; [intros [= ->]; split; [done | lia] | intros [[= ->] _]; done].
Qed.

(** What a successful parse of a test-prepare payload says of its fields. *)
Lemma parse_test_prepare_some max_nflows payload pport nflows :
  1 <= max_nflows ->
  parse_test_prepare max_nflows payload = Some (pport, nflows) ->
  exists opts p,
    fields payload = pport :: opts /\
    decimal pport = Some p /\ 1 <= p <= 65535 /\
    (opts = [] -> nflows = 1) /\
    1 <= nflows <= max_nflows.
Proof.
  intros Hmax. unfold parse_test_prepare.
  destruct (fields payload) as [|fport opts]; [discriminate |].
  destruct (sys_strtonum fport 1 65535) as [p | reason] eqn:Hport; [| discriminate].
  apply sys_strtonum_value in Hport as [Hp Hrange].
  destruct opts as [|f opts].
  - intros [= <- <-]. exists [], p. split_and!; (done || lia).
  - destruct (sys_strtonum f 1 255) as [n | reason] eqn:Hn; [| discriminate].
    apply sys_strtonum_value in Hn as [_ Hnrange].
    intros [= <- <-]. exists (f :: opts), p. split_and!; (done || lia).
Qed.

(** C4: [msg_expect_test_prepare] succeeds only on a TEST_PREPARE message
    whose payload, split at white space, starts with a decimal port between
    1 and 65535; without a second field the number of flows is 1; with one
    it is that decimal clamped to the cap; and in every case it is at
    least 1 and at most the cap. *)
Theorem msg_expect_test_prepare_port_nflows :
  forall msg_read max_nflows c w,
    1 <= max_nflows ->
    (forall pport nflows w',
       msg_expect_test_prepare msg_read max_nflows c w
       = Some (Some (pport, nflows), w') ->
       exists payload opts p,
         msg_read c w = Some (Some (msg_test_prepare, payload), w') /\
         fields payload = pport :: opts /\
         decimal pport = Some p /\ 1 <= p <= 65535 /\
         (opts = [] -> nflows = 1) /\
         1 <= nflows <= max_nflows) /\
    (forall payload pport p w',
       msg_read c w = Some (Some (msg_test_prepare, payload), w') ->
       fields payload = [pport] ->
       decimal pport = Some p -> 1 <= p <= 65535 ->
       msg_expect_test_prepare msg_read max_nflows c w
       = Some (Some (pport, 1), w')) /\
    (forall payload pport f opts p n w',
       msg_read c w = Some (Some (msg_test_prepare, payload), w') ->
       fields payload = pport :: f :: opts ->
       decimal pport = Some p -> 1 <= p <= 65535 ->
       decimal f = Some n -> 1 <= n <= 255 ->
       msg_expect_test_prepare msg_read max_nflows c w
       = Some (Some (pport, Z.min n max_nflows), w')).
Proof.
  intros msg_read max_nflows c w Hmax. split_and!.
  - intros pport nflows w'.
    unfold msg_expect_test_prepare, msg_expect, bind.
    destruct (msg_read c w) as [[[[code payload] |] w1] |]; try discriminate.
    destruct (Z.eqb_spec code msg_test_prepare) as [-> | Hne];
      unfold ret; [| discriminate].
    intros [= Hparse <-].
    destruct (parse_test_prepare_some _ _ _ _ Hmax Hparse)
      as (opts & p & Hfields & Hp & Hrange & Hdef & Hn).
    by exists payload, opts, p.
  - intros payload pport p w' Hread Hfields Hp Hrange.
    unfold msg_expect_test_prepare, msg_expect, bind. rewrite Hread.
    rewrite Z.eqb_refl. unfold ret, parse_test_prepare. rewrite Hfields.
    by rewrite (proj2 (sys_strtonum_value pport 1 65535 p)).
  - intros payload pport f opts p n w' Hread Hfields Hp Hrange Hn Hnrange.
    unfold msg_expect_test_prepare, msg_expect, bind. rewrite Hread.
    rewrite Z.eqb_refl. unfold ret, parse_test_prepare. rewrite Hfields.
    rewrite (proj2 (sys_strtonum_value pport 1 65535 p)) by done.
    by rewrite (proj2 (sys_strtonum_value f 1 255 n)).
Qed.

(** * The handshake: lines on the wire *)

Lemma ws_send_lines_paced st fd lines : forall w inb cap out,
  paced_sock st fd w inb cap out ->
  Z.of_nat (length (concat (map (fun line => line ++ CRLF) lines))) <= cap ->
  exists w',
    ws_send_lines st fd lines w = Some (none, w') /\
    paced_sock st fd w' inb
      (cap - Z.of_nat (length (concat (map (fun line => line ++ CRLF) lines))))
      (out ++ concat (map (fun line => line ++ CRLF) lines)) /\
    rng w' = rng w /\ drawn w' = drawn w.
Proof.
  induction lines as [|line lines IH]; intros w inb cap out Hview Hroom.
  { exists w. simpl. by rewrite Z.sub_0_r, app_nil_r. }
  cbn [ws_send_lines map concat] in *. rewrite length_app in Hroom.
  unfold ws_sendln.
  destruct (netx_sendn_paced_sock st fd w inb cap out (line ++ CRLF) Hview)
    as (w1 & Hrun1 & Hview1 & Hrng1 & Hdrawn1); [lia |].
  unfold bind at 1. rewrite (bind_run _ _ _ _ _ Hrun1). unfold ret at 1.
  destruct (IH w1 inb _ _ Hview1) as (w2 & Hrun2 & Hview2 & Hrng2 & Hdrawn2);
    [lia |].
  rewrite Hrun2. exists w2. split; [done |]. split; [| split; congruence].
  rewrite length_app, app_assoc.
  by replace (cap - Z.of_nat (length (line ++ CRLF) +
                length (concat (map (fun line0 => line0 ++ CRLF) lines))))
    with (cap - Z.of_nat (length (line ++ CRLF))
          - Z.of_nat (length (concat (map (fun line0 => line0 ++ CRLF) lines))))
    by lia.
Qed.

(** The loop of [ws_recvln] on a paced socket fed the rest of a line. *)
Lemma ws_recvln_loop_paced st fd maxlen rest_line :
  forall fuel acc w more cap out,
  paced_sock st fd w (rest_line ++ CRLF ++ more) cap out ->
  forallb (fun b => negb (bool_decide (b = CR)) && negb (bool_decide (b = LF)))
    rest_line = true ->
  Z.of_nat (length acc + length rest_line) < maxlen ->
  (length rest_line + 2 <= fuel)%nat ->
  exists w',
    ws_recvln_loop fuel st fd maxlen acc w = Some ((none, acc ++ rest_line), w') /\
    paced_sock st fd w' more cap out /\
    rng w' = rng w /\ drawn w' = drawn w.
Proof.
  induction rest_line as [|ch rest_line IH];
    intros fuel acc w more cap out Hview Hplain Hlen Hfuel.
  - (* the end of line *)
    destruct fuel as [|[|fuel]]; [simpl in Hfuel; lia .. |].
    cbn [ws_recvln_loop]. simpl in Hlen.
    destruct (Z.leb_spec maxlen (Z.of_nat (length acc))); [lia |].
    destruct (netx_recvn_paced_sock st fd w [CR] (LF :: more) cap out Hview)
      as (w1 & Hrun1 & Hview1 & Hrng1 & Hdrawn1).
    change (Z.of_nat (length [CR])) with 1 in Hrun1.
    rewrite (bind_run _ _ _ _ _ Hrun1). cbn [nth].
    rewrite bool_decide_eq_true_2 by done.
    destruct (Z.leb_spec maxlen (Z.of_nat (length acc))); [lia |].
    destruct (netx_recvn_paced_sock st fd w1 [LF] more cap out Hview1)
      as (w2 & Hrun2 & Hview2 & Hrng2 & Hdrawn2).
    change (Z.of_nat (length [LF])) with 1 in Hrun2.
    rewrite (bind_run _ _ _ _ _ Hrun2). cbn [nth].
    rewrite bool_decide_eq_false_2 by done.
    rewrite bool_decide_eq_true_2 by done.
    exists w2. rewrite app_nil_r. split_and!; (done || congruence).
  - (* one more byte of the line *)
    destruct fuel as [|fuel]; [simpl in Hfuel; lia |].
    cbn [forallb] in Hplain. apply andb_true_iff in Hplain as [Hch Hplain].
    apply andb_true_iff in Hch as [Hcr Hlf].
    apply negb_true_iff in Hcr, Hlf.
    cbn [ws_recvln_loop]. cbn [length] in Hlen, Hfuel.
    destruct (Z.leb_spec maxlen (Z.of_nat (length acc))); [lia |].
    destruct (netx_recvn_paced_sock st fd w [ch] (rest_line ++ CRLF ++ more)
                cap out Hview)
      as (w1 & Hrun1 & Hview1 & Hrng1 & Hdrawn1).
    change (Z.of_nat (length [ch])) with 1 in Hrun1.
    rewrite (bind_run _ _ _ _ _ Hrun1). cbn [nth]. rewrite Hcr, Hlf.
    destruct (IH fuel (acc ++ [ch]) w1 more cap out Hview1 Hplain)
      as (w2 & Hrun2 & Hview2 & Hrng2 & Hdrawn2).
    { rewrite length_app. simpl. lia. }
    { lia. }
    exists w2. rewrite Hrun2, <- app_assoc. split_and!; (done || congruence).
Qed.

Lemma ws_recvln_paced st fd maxlen line w more cap out :
  paced_sock st fd w (line ++ CRLF ++ more) cap out ->
  forallb (fun b => negb (bool_decide (b = CR)) && negb (bool_decide (b = LF)))
    line = true ->
  Z.of_nat (length line) < maxlen ->
  exists w',
    ws_recvln st fd maxlen w = Some ((none, line), w') /\
    paced_sock st fd w' more cap out /\
    rng w' = rng w /\ drawn w' = drawn w.
Proof.
  intros Hview Hplain Hlen. unfold ws_recvln.
  pose proof (paced_sock_weight _ _ _ _ _ _ Hview) as Hweight.
  rewrite !length_app in Hweight. simpl in Hweight.
  apply (ws_recvln_loop_paced st fd maxlen line _ [] w more cap out);
    (done || simpl; lia).
Qed.

(** * The handshake: the response *)

Lemma ws_plain_line_spec line_cap line :
  ws_plain_line line_cap line = true ->
  line <> [] /\
  forallb (fun b => negb (bool_decide (b = CR)) && negb (bool_decide (b = LF)))
    line = true /\
  Z.of_nat (length line) < line_cap.
Proof.
  unfold ws_plain_line. rewrite !andb_true_iff, negb_true_iff, Nat.eqb_neq.
  intros [[Hne Hplain] Hlen]. split_and!; [| done | lia].
  intros ->. by apply Hne.
Qed.

(** On a paced socket fed a whole response, the loop of the handshake
    answers what the scan of its lines answers. *)
Lemma ws_handshake_recv_loop_paced line_cap st fd ws_flags accept ws_protocol lines :
  forall fuel seen w more cap out,
  paced_sock st fd w (ws_response lines ++ more) cap out ->
  forallb (ws_plain_line line_cap) lines = true ->
  0 < line_cap ->
  (length lines < fuel)%nat ->
  exists w',
    ws_handshake_recv_loop line_cap fuel st fd ws_flags accept ws_protocol seen w
    = Some (ws_scan ws_flags accept ws_protocol seen lines, w').
Proof.
  unfold ws_response.
  induction lines as [|line lines IH];
    intros fuel seen w more cap out Hview Hplain Hcap Hfuel;
    (destruct fuel as [|fuel]; [simpl in Hfuel; lia |]);
    cbn [ws_handshake_recv_loop ws_scan map concat] in *.
  - (* the blank line *)
    destruct (ws_recvln_paced st fd line_cap [] w more cap out)
      as (w1 & Hrun1 & _); [exact Hview | done | simpl; lia |].
    rewrite (bind_run _ _ _ _ _ Hrun1). by eexists.
  - (* a line of the response *)
    apply andb_true_iff in Hplain as [Hline Hplain].
    apply ws_plain_line_spec in Hline as (Hne & Hbytes & Hlen).
    destruct (ws_recvln_paced st fd line_cap line w
                (concat (map (fun l => l ++ CRLF) lines) ++ CRLF ++ more) cap out)
      as (w1 & Hrun1 & Hview1 & _); [| done | done |].
    { by rewrite <- !app_assoc in Hview. }
    rewrite (bind_run _ _ _ _ _ Hrun1).
    destruct line as [|b line]; [done |].
    destruct (ws_check_line ws_headers ws_flags accept ws_protocol (b :: line))
      as [flag | e]; [| by eexists].
    apply (IH fuel (Z.lor seen flag) w1 more cap out);
      [| done | done | simpl in Hfuel; lia].
    by rewrite <- app_assoc.
Qed.

(** ** The scan of the lines *)

Lemma ws_header_flag_disjoint h h' :
  h <> h' -> Z.land (ws_header_flag h') (ws_header_flag h) = 0.
Proof. destruct h, h'; (done || reflexivity). Qed.

Lemma flag_set_true mask flag : flag_set mask flag = true <-> Z.land mask flag <> 0.
Proof. unfold flag_set. rewrite negb_true_iff, Z.eqb_neq. done. Qed.

(** A line is a line of one header at most. *)
Lemma ws_header_value_unique h h' line v v' :
  ws_header_value h line = Some v -> ws_header_value h' line = Some v' -> h = h'.
Proof.
  unfold ws_header_value. destruct (split_colon line) as [[n val] |]; [| done].
  unfold eq_nocase.
  destruct (bool_decide_reflect (map to_lower n = map to_lower (ws_header_name h)))
    as [Hn |]; [| done].
  destruct (bool_decide_reflect (map to_lower n = map to_lower (ws_header_name h')))
    as [Hn' |]; [| done].
  intros _ _. rewrite Hn in Hn'. clear Hn.
  destruct h, h'; (done || (vm_compute in Hn'; discriminate)).
Qed.

(** What the check of a line can answer. *)
Lemma ws_check_line_cases hs ws_flags accept ws_protocol line :
  match ws_check_line hs ws_flags accept ws_protocol line with
  | inl flag =>
      flag = 0 \/
      exists h v, flag = ws_header_flag h /\ ws_header_value h line = Some v /\
                  ws_value_ok h accept ws_protocol v = true
  | inr e => e = ws_proto
  end.
Proof.
  induction hs as [|h hs IH]; simpl; [by left |].
  destruct (ws_header_value h line) as [v |] eqn:Hv; [| exact IH].
  destruct (flag_set ws_flags (ws_header_flag h)); [| by left].
  destruct (ws_value_ok h accept ws_protocol v) eqn:Hok; [| done].
  right. by exists h, v.
Qed.

(** The check of a line that gives a required header an invalid value. *)
Lemma ws_check_line_invalid ws_flags accept ws_protocol line h v :
  flag_set ws_flags (ws_header_flag h) = true ->
  ws_header_value h line = Some v ->
  ws_value_ok h accept ws_protocol v = false ->
  ws_check_line ws_headers ws_flags accept ws_protocol line = inr ws_proto.
Proof.
  intros Hreq Hv Hbad.
  assert (Hin : In h ws_headers) by (destruct h; simpl; tauto).
  induction ws_headers as [|h' hs IH]; [done |]. simpl.
  destruct (ws_header_value h' line) as [v' |] eqn:Hv'.
  - assert (h = h') as <- by (eapply ws_header_value_unique; eauto).
    rewrite Hv in Hv'. injection Hv' as <-. by rewrite Hreq, Hbad.
  - destruct Hin as [-> | Hin]; [congruence | by apply IH].
Qed.

(** A response that gives a required header an invalid value fails. *)
Lemma ws_scan_invalid ws_flags accept ws_protocol h lines : forall seen,
  flag_set ws_flags (ws_header_flag h) = true ->
  ws_header_invalid h accept ws_protocol lines ->
  ws_scan ws_flags accept ws_protocol seen lines = ws_proto.
Proof.
  intros seen Hreq Hbad. revert seen.
  induction Hbad as [line lines (v & Hv & Hno) | line lines Hbad IH];
    intros seen; cbn [ws_scan].
  - by rewrite (ws_check_line_invalid _ _ _ _ h v).
  - pose proof (ws_check_line_cases ws_headers ws_flags accept ws_protocol line)
      as Hcases.
    destruct (ws_check_line ws_headers ws_flags accept ws_protocol line); [| done].
    apply IH.
Qed.

(** A response that lacks a required header fails. *)
Lemma ws_scan_missing ws_flags accept ws_protocol h lines : forall seen,
  flag_set ws_flags (ws_header_flag h) = true ->
  ws_header_missing h lines ->
  Z.land seen (ws_header_flag h) = 0 ->
  ws_scan ws_flags accept ws_protocol seen lines = ws_proto.
Proof.
  intros seen Hreq Hmiss. revert seen.
  induction Hmiss as [|line lines Hline Hmiss IH]; intros seen Hseen;
    cbn [ws_scan].
  - destruct (Z.eqb_spec (Z.land seen ws_flags) ws_flags) as [Heq | ?]; [| done].
    apply flag_set_true in Hreq. exfalso. apply Hreq.
    rewrite <- Heq, <- Z.land_assoc, (Z.land_comm ws_flags), Z.land_assoc, Hseen.
    apply Z.land_0_l.
  - pose proof (ws_check_line_cases ws_headers ws_flags accept ws_protocol line)
      as Hcases.
    destruct (ws_check_line ws_headers ws_flags accept ws_protocol line)
      as [flag | e]; [| done].
    apply IH. rewrite Z.land_lor_distr_l, Hseen, Z.lor_0_l.
    destruct Hcases as [-> | (h' & v & -> & Hv & _)]; [apply Z.land_0_l |].
    apply ws_header_flag_disjoint. intros ->. congruence.
Qed.

Lemma ws_response_lines_length (lines : list (list byte)) :
  (length lines <= length (concat (map (fun line => line ++ CRLF) lines)))%nat.
Proof.
  induction lines as [|line lines IH]; simpl; [done |].
  rewrite !length_app. simpl. lia.
Qed.

(** C5: when the response of the server to the upgrade request lacks a
    header that the flag set requires, or gives such a header an invalid
    value, [ws_handshake] returns [ws_proto].  The value of [Upgrade] is
    valid when it is "websocket" up to case, that of [Connection] when it
    contains "Upgrade", that of [Sec-WebSocket-Accept] when it is the base64
    of the SHA1 of the key followed by the GUID, and that of
    [Sec-WebSocket-Protocol] when it is the protocol that was offered. *)
Theorem ws_handshake_rejects_bad_response :
  (forall sha1 base64 request_line line_cap st fd pport ws_flags ws_protocol
          w lines more cap out h,
     let key := base64 (map (rng w) (seq (drawn w) 16)) in
     let request :=
       concat (map (fun line => line ++ CRLF)
                 (ws_request request_line st pport ws_flags ws_protocol key)) in
     paced_sock st fd w (ws_response lines ++ more) cap out ->
     Z.of_nat (length request) <= cap ->
     forallb (ws_plain_line line_cap) lines = true ->
     0 < line_cap ->
     flag_set ws_flags (ws_header_flag h) = true ->
     ws_header_missing h lines \/
     ws_header_invalid h (ws_accept sha1 base64 key) ws_protocol lines ->
     exists w',
       ws_handshake sha1 base64 request_line line_cap st fd pport ws_flags
         ws_protocol w = Some (ws_proto, w')) /\
  (forall sha1 base64 key accept ws_protocol v,
     ws_accept sha1 base64 key = base64 (sha1 (key ++ ws_guid)) /\
     ws_value_ok H_upgrade accept ws_protocol v
     = eq_nocase v (bytes_of "websocket") /\
     ws_value_ok H_connection accept ws_protocol v
     = contains (bytes_of "Upgrade") v /\
     (ws_value_ok H_sec_ws_accept accept ws_protocol v = true <-> v = accept) /\
     (ws_value_ok H_sec_ws_protocol accept ws_protocol v = true <-> v = ws_protocol)).
Proof.
  split.
  - intros sha1 base64 request_line line_cap st fd pport ws_flags ws_protocol
           w lines more cap out h key request Hview Hroom Hplain Hcap Hreq Hbad.
    unfold ws_handshake.
    destruct (random_bytes_paced_sock st fd w _ cap out 16 Hview)
      as (w0 & Hrun0 & Hview0 & Hrng0 & Hdrawn0).
    rewrite (bind_run _ _ _ _ _ Hrun0). fold key.
    destruct (ws_send_lines_paced st fd
                (ws_request request_line st pport ws_flags ws_protocol key)
                w0 _ cap out Hview0)
      as (w1 & Hrun1 & Hview1 & Hrng1 & Hdrawn1); [exact Hroom |].
    rewrite (bind_run _ _ _ _ _ Hrun1).
    pose proof (paced_sock_weight _ _ _ _ _ _ Hview1) as Hweight.
    unfold ws_response in Hweight. rewrite !length_app in Hweight.
    pose proof (ws_response_lines_length lines) as Hlines.
    destruct (ws_handshake_recv_loop_paced line_cap st fd ws_flags
                (ws_accept sha1 base64 key) ws_protocol lines
                (S (rx_weight (sock_rx w1 fd))) 0 w1 more _ _ Hview1 Hplain Hcap)
      as (w2 & Hrun2); [lia |].
    exists w2. rewrite Hrun2. f_equal. f_equal.
    destruct Hbad as [Hmiss | Hinv].
    + by apply (ws_scan_missing _ _ _ h).
    + by apply (ws_scan_invalid _ _ _ h).
  - intros sha1 base64 key accept ws_protocol v. split_and!; try reflexivity.
    + apply bool_decide_eq_true.
    + apply bool_decide_eq_true.
Qed.

(** * Every entry point returns

    The fuel that the entry points give their loops is never used up: on
    every world, each of them gives a result. *)

Lemma netx_recvn_returns st fd count w :
  exists e got w',
    netx_recvn st fd count w = Some ((e, got), w') /\
    (rx_weight (sock_rx w' fd) + length got <= rx_weight (sock_rx w fd))%nat /\
    (e = none -> count <= Z.of_nat (length got)).
Proof.
  unfold netx_recvn. destruct (socks w !! fd) as [s|] eqn:Hs.
  - rewrite (sock_rx_open _ _ _ Hs).
    destruct (netx_recvn_loop_run (S (length (rx s))) (timeout st) fd count [] w s)
      as (e & moved & s' & Hrun & _ & _ & _ & Hwt & Hnone & _); [done | lia |].
    exists e, moved, (set_sock fd s' w). rewrite sock_rx_set.
    split_and!; [done | done |]. intros He. specialize (Hnone He).
    simpl in Hnone. lia.
  - assert (Hrx : sock_rx w fd = []) by (unfold sock_rx; by rewrite Hs).
    rewrite Hrx, netx_recvn_loop_closed by done.
    change (Z.of_nat (length (@nil byte))) with 0.
    eexists _, [], w. split; [reflexivity |]. rewrite Hrx. split; [simpl; lia |].
    destruct (Z.leb_spec count 0); [simpl; lia | discriminate].
Qed.

Lemma netx_sendn_returns st fd data w :
  exists e n w',
    netx_sendn st fd data w = Some ((e, n), w') /\ sock_rx w' fd = sock_rx w fd.
Proof.
  destruct (netx_sendn_run st fd data w) as (e & n & w' & Hrun & _ & Hrx & _).
  by exists e, n, w'.
Qed.

Lemma msg_read_legacy_returns c w :
  exists r w', msg_read_legacy c w = Some (r, w').
Proof.
  unfold msg_read_legacy.
  destruct (netx_recvn_returns (settings c) (sock c) 3 w)
    as (e & hdr & w1 & Hrun1 & _).
  rewrite (bind_run _ _ _ _ _ Hrun1).
  destruct e; try (by eexists _, _);
    destruct hdr as [|b0 [|b1 [|b2 [|b3 hdr]]]]; try (by eexists _, _).
  destruct (netx_recvn_returns (settings c) (sock c)
              (256 * Z_of_byte b1 + Z_of_byte b2) w1)
    as (e' & msg & w2 & Hrun2 & _).
  rewrite (bind_run _ _ _ _ _ Hrun2). destruct e'; by eexists _, _.
Qed.

Lemma ws_send_frame_returns st fd first payload w :
  exists e w',
    ws_send_frame st fd first payload w = Some (e, w') /\
    sock_rx w' fd = sock_rx w fd.
Proof.
  unfold ws_send_frame, bind at 1, random_bytes.
  set (w0 := {| socks := socks w; rng := rng w; drawn := (drawn w + 4)%nat |}).
  set (key := map (rng w) (seq (drawn w) 4)).
  destruct (netx_sendn_returns st fd
              (ws_client_header first key (Z.of_nat (length payload))) w0)
    as (e1 & n1 & w1 & Hrun1 & Hrx1).
  rewrite (bind_run _ _ _ _ _ Hrun1).
  assert (Hrx0 : sock_rx w0 fd = sock_rx w fd) by reflexivity.
  destruct e1; try (eexists _, _; split; [reflexivity | congruence]).
  destruct (netx_sendn_returns st fd (ws_mask key payload) w1)
    as (e2 & n2 & w2 & Hrun2 & Hrx2).
  rewrite (bind_run _ _ _ _ _ Hrun2).
  eexists _, _; split; [reflexivity | congruence].
Qed.

Lemma ws_recv_any_frame_returns st fd total w :
  exists e f w',
    ws_recv_any_frame st fd total w = Some ((e, f), w') /\
    (rx_weight (sock_rx w' fd) <= rx_weight (sock_rx w fd))%nat /\
    (e = none -> (rx_weight (sock_rx w' fd) < rx_weight (sock_rx w fd))%nat).
Proof.
  unfold ws_recv_any_frame.
  destruct (netx_recvn_returns st fd 2 w) as (e0 & hdr & w0 & Hrun0 & Hwt0 & Hlen0).
  rewrite (bind_run _ _ _ _ _ Hrun0).
  assert (Hfail : forall e, e <> none ->
            exists e' f w',
              Some ((e, ws_no_frame), w0) = Some ((e', f), w') /\
              (rx_weight (sock_rx w' fd) <= rx_weight (sock_rx w fd))%nat /\
              (e' = none -> (rx_weight (sock_rx w' fd) < rx_weight (sock_rx w fd))%nat)).
  { intros e He. exists e, ws_no_frame, w0. split_and!; (done || lia). }
  destruct e0; try (apply Hfail; discriminate).
  specialize (Hlen0 eq_refl).
  destruct (negb (Z.land _ ws_reserved_mask =? 0)); [apply Hfail; discriminate |].
  destruct (negb (Z.land _ ws_mask_flag =? 0)); [apply Hfail; discriminate |].
  set (len7 := Z.land _ ws_len_mask).
  assert (Hext : exists e1 len w1,
            (if len7 =? 126
             then bind (netx_recvn st fd 2)
                    (fun x => let '(e, ext) := x in ret (e, be_value ext))
             else if len7 =? 127
             then bind (netx_recvn st fd 8)
                    (fun x => let '(e, ext) := x in ret (e, be_value ext))
             else ret (none, len7)) w0 = Some ((e1, len), w1) /\
            (rx_weight (sock_rx w1 fd) <= rx_weight (sock_rx w0 fd))%nat).
  { destruct (len7 =? 126); [| destruct (len7 =? 127)].
    - destruct (netx_recvn_returns st fd 2 w0) as (e & ext & w1 & Hrun & Hwt & _).
      rewrite (bind_run _ _ _ _ _ Hrun). eexists _, _, _. split; [reflexivity | lia].
    - destruct (netx_recvn_returns st fd 8 w0) as (e & ext & w1 & Hrun & Hwt & _).
      rewrite (bind_run _ _ _ _ _ Hrun). eexists _, _, _. split; [reflexivity | lia].
    - eexists _, _, _. split; [reflexivity | lia]. }
  destruct Hext as (e1 & len & w1 & Hrun1 & Hwt1).
  rewrite (bind_run _ _ _ _ _ Hrun1).
  assert (Hfail1 : forall e, e <> none ->
            exists e' f w',
              Some ((e, ws_no_frame), w1) = Some ((e', f), w') /\
              (rx_weight (sock_rx w' fd) <= rx_weight (sock_rx w fd))%nat /\
              (e' = none -> (rx_weight (sock_rx w' fd) < rx_weight (sock_rx w fd))%nat)).
  { intros e He. exists e, ws_no_frame, w1. split_and!; (done || lia). }
  destruct e1; try (apply Hfail1; discriminate).
  destruct (total <? len); [apply Hfail1; discriminate |].
  destruct (netx_recvn_returns st fd len w1) as (e2 & payload & w2 & Hrun2 & Hwt2 & _).
  rewrite (bind_run _ _ _ _ _ Hrun2).
  destruct e2; eexists _, _, _; (split; [reflexivity |]); split; (lia || done).
Qed.

Lemma ws_recv_frame_loop_returns st fd total fuel : forall w,
  (rx_weight (sock_rx w fd) < fuel)%nat ->
  exists r w', ws_recv_frame_loop fuel st fd total w = Some (r, w').
Proof.
  induction fuel as [|fuel IH]; intros w Hfuel; [lia |].
  cbn [ws_recv_frame_loop].
  destruct (ws_recv_any_frame_returns st fd total w)
    as (e & f & w1 & Hrun1 & Hwt1 & Hlt1).
  rewrite (bind_run _ _ _ _ _ Hrun1).
  destruct e; try (by eexists _, _). specialize (Hlt1 eq_refl).
  destruct (ws_opcode f =? ws_opcode_close).
  { destruct (ws_send_frame_returns st fd (Z.lor ws_opcode_close ws_fin_flag) [] w1)
      as (e2 & w2 & Hrun2 & _).
    rewrite (bind_run _ _ _ _ _ Hrun2). by eexists _, _. }
  destruct (ws_opcode f =? ws_opcode_pong); [apply IH; lia |].
  destruct (ws_opcode f =? ws_opcode_ping); [| by eexists _, _].
  destruct (ws_send_frame_returns st fd (Z.lor ws_opcode_pong ws_fin_flag)
              (ws_payload f) w1) as (e2 & w2 & Hrun2 & Hrx2).
  rewrite (bind_run _ _ _ _ _ Hrun2).
  destruct e2; try (by eexists _, _). apply IH. rewrite Hrx2. lia.
Qed.

Lemma ws_recv_frame_returns st fd total w :
  exists r w', ws_recv_frame st fd total w = Some (r, w').
Proof. apply ws_recv_frame_loop_returns. lia. Qed.

Lemma ws_recvln_loop_returns st fd maxlen fuel : forall line w,
  (rx_weight (sock_rx w fd) < fuel)%nat ->
  exists e line' w',
    ws_recvln_loop fuel st fd maxlen line w = Some ((e, line'), w') /\
    (rx_weight (sock_rx w' fd) <= rx_weight (sock_rx w fd))%nat /\
    (e = none -> (rx_weight (sock_rx w' fd) < rx_weight (sock_rx w fd))%nat).
Proof.
  induction fuel as [|fuel IH]; intros line w Hfuel; [lia |].
  cbn [ws_recvln_loop].
  destruct (maxlen <=? Z.of_nat (length line)).
  { eexists _, _, _. split; [reflexivity |]. split; [lia | discriminate]. }
  destruct (netx_recvn_returns st fd 1 w) as (e & bs & w1 & Hrun1 & Hwt1 & Hlen1).
  rewrite (bind_run _ _ _ _ _ Hrun1).
  destruct e;
    try (eexists _, _, _; split; [reflexivity |]; split; [lia | discriminate]).
  specialize (Hlen1 eq_refl).
  assert (Hgo : forall line0,
            exists e line' w',
              ws_recvln_loop fuel st fd maxlen line0 w1 = Some ((e, line'), w') /\
              (rx_weight (sock_rx w' fd) <= rx_weight (sock_rx w fd))%nat /\
              (e = none -> (rx_weight (sock_rx w' fd) < rx_weight (sock_rx w fd))%nat)).
  { intros line0.
    destruct (IH line0 w1) as (e & line' & w' & Hrun & Hwt & Hlt); [lia |].
    exists e, line', w'. split_and!; [done | lia |]. intros He.
    specialize (Hlt He). lia. }
  destruct (bool_decide (nth 0 bs "000"%byte = CR)); [apply Hgo |].
  destruct (bool_decide (nth 0 bs "000"%byte = LF)); [| apply Hgo].
  eexists _, _, _. split; [reflexivity |]. split; lia.
Qed.

Lemma ws_recvln_returns st fd maxlen w :
  exists e line w',
    ws_recvln st fd maxlen w = Some ((e, line), w') /\
    (rx_weight (sock_rx w' fd) <= rx_weight (sock_rx w fd))%nat /\
    (e = none -> (rx_weight (sock_rx w' fd) < rx_weight (sock_rx w fd))%nat).
Proof. apply ws_recvln_loop_returns. lia. Qed.

Lemma ws_send_lines_returns st fd lines : forall w,
  exists e w', ws_send_lines st fd lines w = Some (e, w').
Proof.
  induction lines as [|line lines IH]; intros w; [by eexists _, _ |].
  cbn [ws_send_lines]. unfold ws_sendln.
  destruct (netx_sendn_returns st fd (line ++ CRLF) w) as (e & n & w1 & Hrun1 & _).
  unfold bind at 1. rewrite (bind_run _ _ _ _ _ Hrun1). unfold ret at 1.
  destruct e; try (by eexists _, _). apply IH.
Qed.

Lemma ws_handshake_recv_loop_returns line_cap st fd ws_flags accept ws_protocol fuel :
  forall seen w,
  (rx_weight (sock_rx w fd) < fuel)%nat ->
  exists e w',
    ws_handshake_recv_loop line_cap fuel st fd ws_flags accept ws_protocol seen w
    = Some (e, w').
Proof.
  induction fuel as [|fuel IH]; intros seen w Hfuel; [lia |].
  cbn [ws_handshake_recv_loop].
  destruct (ws_recvln_returns st fd line_cap w)
    as (e & line & w1 & Hrun1 & Hwt1 & Hlt1).
  rewrite (bind_run _ _ _ _ _ Hrun1).
  destruct e; try (by eexists _, _). specialize (Hlt1 eq_refl).
  destruct line as [|b line]; [by eexists _, _ |].
  destruct (ws_check_line ws_headers ws_flags accept ws_protocol (b :: line));
    [apply IH; lia | by eexists _, _].
Qed.

Lemma ws_handshake_returns sha1 base64 request_line line_cap st fd pport
    ws_flags ws_protocol w :
  exists e w',
    ws_handshake sha1 base64 request_line line_cap st fd pport ws_flags
      ws_protocol w = Some (e, w').
Proof.
  unfold ws_handshake, bind at 1, random_bytes.
  destruct (ws_send_lines_returns st fd
              (ws_request request_line st pport ws_flags ws_protocol
                 (base64 (map (rng w) (seq (drawn w) 16))))
              {| socks := socks w; rng := rng w; drawn := (drawn w + 16)%nat |})
    as (e & w1 & Hrun1).
  rewrite (bind_run _ _ _ _ _ Hrun1).
  destruct e; try (by eexists _, _).
  apply ws_handshake_recv_loop_returns. lia.
Qed.

Lemma msg_write_legacy_returns c code msg w :
  exists b w', msg_write_legacy c code msg w = Some (b, w').
Proof.
  destruct (msg_write_legacy_err_run c code msg w) as (e & w' & Hrun & _).
  unfold msg_write_legacy. rewrite (bind_run _ _ _ _ _ Hrun). by eexists _, _.
Qed.

(** The entry points of the model, each on every world. *)
Theorem entry_points_return :
  (forall st fd count w, exists r w', netx_recvn st fd count w = Some (r, w')) /\
  (forall st fd data w, exists r w', netx_sendn st fd data w = Some (r, w')) /\
  (forall c code msg w, exists r w', msg_write_legacy c code msg w = Some (r, w')) /\
  (forall c w, exists r w', msg_read_legacy c w = Some (r, w')) /\
  (forall st fd first payload w,
     exists r w', ws_send_frame st fd first payload w = Some (r, w')) /\
  (forall st fd total w, exists r w', ws_recv_any_frame st fd total w = Some (r, w')) /\
  (forall st fd total w, exists r w', ws_recv_frame st fd total w = Some (r, w')) /\
  (forall st fd maxlen w, exists r w', ws_recvln st fd maxlen w = Some (r, w')) /\
  (forall sha1 base64 request_line line_cap st fd pport ws_flags ws_protocol w,
     exists r w',
       ws_handshake sha1 base64 request_line line_cap st fd pport ws_flags
         ws_protocol w = Some (r, w')).
Proof.
  split_and!.
  - intros st fd count w.
    destruct (netx_recvn_returns st fd count w) as (e & got & w' & Hrun & _).
    by eexists _, _.
  - intros st fd data w.
    destruct (netx_sendn_returns st fd data w) as (e & n & w' & Hrun & _).
    by eexists _, _.
  - apply msg_write_legacy_returns.
  - apply msg_read_legacy_returns.
  - intros st fd first payload w.
    destruct (ws_send_frame_returns st fd first payload w) as (e & w' & Hrun & _).
    by eexists _, _.
  - intros st fd total w.
    destruct (ws_recv_any_frame_returns st fd total w) as (e & f & w' & Hrun & _).
    by eexists _, _.
  - apply ws_recv_frame_returns.
  - intros st fd maxlen w.
    destruct (ws_recvln_returns st fd maxlen w) as (e & line & w' & Hrun & _).
    by eexists _, _.
  - apply ws_handshake_returns.
Qed.

(** * Worked instances *)

(** The theorem on a socket that delivers two bytes and then falls silent
    for the whole timeout, and whose send buffer takes one byte and then
    stays full. *)
Lemma netx_recvn_sendn_exact_or_error_witness :
  let w := one_sock_world 3 [RxData ["a"; "b"]%byte; RxIdle 7]
                            [TxRoom 1; TxBusy 9] 0 in
  (exists e got w',
     netx_recvn Settings_default 3 4 w = Some ((e, got), w') /\
     rx_stream (sock_rx w 3) = got ++ rx_stream (sock_rx w' 3) /\
     ((e = none /\ Z.of_nat (length got) = 4) \/
      (e <> none /\ Z.of_nat (length got) < 4))) /\
  (exists w',
     netx_recvn Settings_default 3 4 w
     = Some ((timed_out, ["a"; "b"]%byte), w')) /\
  (exists w',
     netx_sendn Settings_default 3 ["x"; "y"]%byte w = Some ((timed_out, 1), w') /\
     sock_sent w' 3 = ["x"]%byte).
Proof.
  intros w.
  destruct netx_recvn_sendn_exact_or_error as (Hrecv & _ & Hrecv_to & Hsend_to).
  split; [| split].
  - apply (Hrecv Settings_default 3 4 w). lia.
  - apply (Hrecv_to Settings_default 3 4 w
             {| rx := [RxData ["a"; "b"]%byte; RxIdle 7];
                tx := [TxRoom 1; TxBusy 9]; sent := [] |}
             [RxData ["a"; "b"]%byte] [RxIdle 7]);
      (reflexivity || (simpl; lia)).
  - apply (Hsend_to Settings_default 3 ["x"; "y"]%byte w
             {| rx := [RxData ["a"; "b"]%byte; RxIdle 7];
                tx := [TxRoom 1; TxBusy 9]; sent := [] |}
             [TxRoom 1] [TxBusy 9]);
      (reflexivity || (simpl; lia)).
Defined.

(** The theorem on a one-byte payload of type [msg_test_msg], written to a
    socket whose buffer takes two bytes at a time and read from a socket
    that delivers the message in two pieces with a pause in between; and on
    a payload of 65536 bytes. *)
Lemma legacy_codec_roundtrip_witness :
  let c := mkClient Settings_default 3 in
  let ww := one_sock_world 3 [] [TxRoom 2; TxBusy 1; TxRoom 2] 0 in
  let wr := one_sock_world 3 [RxData ["005"; "000"]%byte; RxIdle 2;
                              RxData ["001"; "x"]%byte] [] 0 in
  (exists ww', msg_write_legacy c msg_test_msg ["x"%byte] ww = Some (true, ww')) /\
  (exists wr', msg_read_legacy c wr = Some (Some (msg_test_msg, ["x"%byte]), wr')) /\
  msg_write_legacy_err c msg_test_msg (repeat "x"%byte (Z.to_nat 65536)) ww
  = Some (message_size, ww).
Proof.
  intros c ww wr.
  destruct legacy_codec_roundtrip as (Hround & Hwrite & Hlong).
  assert (Hw : exists ww',
             msg_write_legacy c msg_test_msg ["x"%byte] ww = Some (true, ww')).
  { apply (Hwrite c msg_test_msg ["x"%byte] ww
             {| rx := []; tx := [TxRoom 2; TxBusy 1; TxRoom 2]; sent := [] |}
             [TxRoom 2; TxBusy 1; TxRoom 2] []);
      (reflexivity || (simpl; lia)). }
  split; [exact Hw | split].
  - destruct Hw as [ww' Hww'].
    apply (Hround c c msg_test_msg ["x"%byte] ww ww' wr
             {| rx := [RxData ["005"; "000"]%byte; RxIdle 2;
                       RxData ["001"; "x"]%byte]; tx := []; sent := [] |}
             [RxData ["005"; "000"]%byte; RxIdle 2; RxData ["001"; "x"]%byte] []);
      try (reflexivity || (unfold msg_test_msg; lia)); try exact Hww'.
    vm_compute in Hww'. injection Hww' as <-. reflexivity.
  - apply (Hlong c msg_test_msg (repeat "x"%byte (Z.to_nat 65536)) ww).
    rewrite repeat_length. lia.
Defined.

(** The theorem on a socket that receives a PING, a PONG and a binary
    frame in one segment: the binary frame is returned, and the wire holds
    one PONG with the payload of the PING. *)
Lemma ws_recv_frame_control_frames_witness :
  let ping := {| ws_fin := true; ws_opcode := ws_opcode_ping;
                 ws_payload := ["p"; "i"; "n"; "g"]%byte |} in
  let pong := {| ws_fin := true; ws_opcode := ws_opcode_pong;
                 ws_payload := ["z"]%byte |} in
  let data := {| ws_fin := false; ws_opcode := ws_opcode_binary;
                 ws_payload := ["d"; "a"; "t"; "a"]%byte |} in
  let w := one_sock_world 3
             [RxData (concat (map ws_server_frame [ping; pong; data]))]
             [TxRoom 100] 16 in
  exists w',
    ws_recv_frame Settings_default 3 100 w = Some ((none, data), w') /\
    sock_sent w' 3
    = ws_client_frame (Z.lor ws_opcode_pong ws_fin_flag) (ws_key_at w 0)
        ["p"; "i"; "n"; "g"]%byte.
Proof.
  intros ping pong data w.
  destruct ws_recv_frame_control_frames as [Hframes _].
  destruct (Hframes Settings_default 3 100 w [ping; pong] data [] 100 [])
    as (w' & Hrun & Hsent).
  - split; [| split].
    + exists [RxData (concat (map ws_server_frame [ping; pong; data]))], [].
      repeat split; reflexivity.
    + exists [TxRoom 100], []. repeat split; reflexivity.
    + reflexivity.
  - reflexivity.
  - reflexivity.
  - reflexivity.
  - vm_compute. discriminate.
  - exists w'. split; [exact Hrun | rewrite Hsent; reflexivity].
Defined.

(** The theorem on the payload "3010 3" read by [msg_read_legacy] from a
    socket that delivers it, with a cap of 16 flows. *)
Lemma msg_expect_test_prepare_port_nflows_witness :
  let c := mkClient Settings_default 3 in
  let w := one_sock_world 3
             [RxData (legacy_message msg_test_prepare (bytes_of "3010 3"))] [] 0 in
  exists w',
    msg_expect_test_prepare msg_read_legacy 16 c w
    = Some (Some (bytes_of "3010", 3), w').
Proof.
  intros c w.
  destruct (msg_expect_test_prepare_port_nflows msg_read_legacy 16 c w)
    as (_ & _ & Hflows); [lia |].
  eexists.
  apply (Hflows (bytes_of "3010 3") (bytes_of "3010") (bytes_of "3") [] 3010 3);
    try (vm_compute; reflexivity); lia.
Defined.

(** The theorem on a response without [Sec-WebSocket-Accept] when all four
    headers are required; the digest and the encoding are stand-ins. *)
Lemma ws_handshake_rejects_bad_response_witness :
  let lines := map bytes_of
                 ["HTTP/1.1 101 Switching Protocols"; "Upgrade: websocket";
                  "Connection: Upgrade"; "Sec-WebSocket-Protocol: ndt"]%string in
  let w := one_sock_world 3 [RxData (ws_response lines)] [TxRoom 1000] 0 in
  exists w',
    ws_handshake (@rev byte) (map to_lower) (bytes_of "GET /ndt_protocol HTTP/1.1")
      8000 Settings_default 3 (bytes_of "3001")
      (Z.lor (Z.lor ws_f_connection ws_f_upgrade)
             (Z.lor ws_f_sec_ws_accept ws_f_sec_ws_protocol))
      (bytes_of ws_proto_control) w
    = Some (ws_proto, w').
Proof.
  intros lines w.
  destruct ws_handshake_rejects_bad_response as [Hreject _].
  apply (Hreject (@rev byte) (map to_lower) (bytes_of "GET /ndt_protocol HTTP/1.1")
           8000 Settings_default 3 (bytes_of "3001") _ (bytes_of ws_proto_control)
           w lines [] 1000 [] H_sec_ws_accept).
  - split; [| split].
    + exists [RxData (ws_response lines)], []. repeat split; reflexivity.
    + exists [TxRoom 1000], []. repeat split; reflexivity.
    + reflexivity.
  - vm_compute. discriminate.
  - reflexivity.
  - lia.
  - reflexivity.
  - left. repeat constructor.
Defined.

(** The legacy codec run on payloads of 0, 1, 65535 and 65536 bytes. *)
Example legacy_loopback_lengths :
  let big := repeat "x"%byte (Z.to_nat 65535) in
  legacy_loopback msg_test_msg [] = Some (msg_test_msg, []) /\
  legacy_loopback msg_login ["x"%byte] = Some (msg_login, ["x"%byte]) /\
  bool_decide (legacy_loopback msg_results big = Some (msg_results, big)) = true /\
  bool_decide (legacy_loopback msg_results ("x"%byte :: big) = None) = true.
Proof. vm_compute. repeat split; reflexivity. Qed.

(** The flags theorem on the default mask, which requests the download
    subtest: adding the upload flag requests both. *)
Lemma nettest_flags_independent_witness :
  let mask := flag_add (nettest_flags Settings_default) nettest_flag_upload in
  flag_set mask nettest_flag_upload = true /\
  flag_set mask nettest_flag_download = true /\
  fits NettestFlags_width mask.
Proof.
  intros mask. subst mask. destruct nettest_flags_independent as [Hflags _].
  destruct (Hflags (nettest_flags Settings_default)
              nettest_flag_upload nettest_flag_download)
    as ((Hset & Hother & _) & Hfit).
  - simpl. tauto.
  - simpl. tauto.
  - vm_compute. discriminate.
  - split; [exact Hset |]. split; [rewrite Hother; reflexivity |].
    apply Hfit. unfold fits. vm_compute. split; [discriminate | reflexivity].
Defined.

(** The flags theorem on a mask that asks for TLS and WebSocket: dropping
    TLS leaves WebSocket alone. *)
Lemma protocol_flags_single_bits_witness :
  let mask := Z.lor protocol_flag_tls protocol_flag_websocket in
  flag_set (flag_remove mask protocol_flag_tls) protocol_flag_tls = false /\
  flag_set (flag_remove mask protocol_flag_tls) protocol_flag_websocket = true.
Proof.
  intros mask. destruct protocol_flags_single_bits as (_ & _ & _ & Hflags).
  destruct (Hflags mask protocol_flag_tls protocol_flag_websocket)
    as ((_ & _ & Hclear & Hother) & _).
  - simpl. tauto.
  - simpl. tauto.
  - vm_compute. discriminate.
  - split; [exact Hclear | rewrite Hother; reflexivity].
Defined.

(** The flags theorem on a handshake that requires the Upgrade header:
    requiring Connection as well keeps Upgrade required. *)
Lemma ws_f_flags_single_bits_witness :
  flag_set (flag_add ws_f_upgrade ws_f_connection) ws_f_connection = true /\
  flag_set (flag_add ws_f_upgrade ws_f_connection) ws_f_upgrade = true.
Proof.
  destruct ws_f_flags_single_bits as (_ & _ & _ & Hflags).
  destruct (Hflags ws_f_upgrade ws_f_connection ws_f_upgrade)
    as ((Hset & Hother & _) & _).
  - simpl. tauto.
  - simpl. tauto.
  - vm_compute. discriminate.
  - split; [exact Hset | rewrite Hother; reflexivity].
Defined.

(** The octets theorem on the first octet of a final PING and on the
    second octet of a masked frame of 125 bytes. *)
Lemma ws_octets_roundtrip_witness :
  (flag_set (Z.lor ws_fin_flag ws_opcode_ping) ws_fin_flag = true /\
   Z.land (Z.lor ws_fin_flag ws_opcode_ping) ws_opcode_mask = ws_opcode_ping) /\
  (flag_set (Z.lor ws_mask_flag 125) ws_mask_flag = true /\
   Z.land (Z.lor ws_mask_flag 125) ws_len_mask = 125).
Proof.
  destruct ws_octets_roundtrip as (_ & Hfirst & Hsecond).
  split.
  - destruct (Hfirst true ws_opcode_ping) as (_ & Hfin & _ & Hop);
      [reflexivity |].
    split; [exact Hfin | exact Hop].
  - destruct (Hsecond true 125) as (_ & Hmask & Hlen); [reflexivity |].
    split; [exact Hmask | exact Hlen].
Defined.

(** The values theorem on [none]: it is the enumerator of value zero, and
    an enumerator of the value of [timed_out] is [timed_out]. *)
Lemma Err_values_consecutive_witness :
  Err_value none = 0 /\ timed_out = timed_out.
Proof.
  destruct Err_values_consecutive as (_ & _ & Hinj & Hzero).
  split.
  - apply (proj2 (Hzero none)). reflexivity.
  - apply (Hinj timed_out timed_out). reflexivity.
Defined.
